(** * Literature-review pipeline: deduplication, downloads, search orchestration

    A shallow embedding of five scripts of [plugins/mats/scripts/lit-review]:

    - [dedup_papers.py]            (module [dedup_papers]),
    - [download_pdfs.py]           (module [download_pdfs]),
    - [run_searches.py]            (module [run_searches]),
    - [generate_catalog.py]        (module [generate_catalog], the lookup),
    - [search_semantic_scholar.py] (module [search_semantic_scholar], one
      query),

    followed by the properties proved about them.

    Conventions of the embedding.

    - A Python [str] is a Rocq [string]; the text functions ([lower], the
      regular-expression classes [\w] and [\s], [split]) are given on ASCII.
    - A record (a JSON object read through [dict.get]) is a Rocq record whose
      fields are [option]s: [None] stands for an absent key or a JSON null.
    - Python's truth test on such a value is [truthy].
    - Scores and thresholds are Python floats in the source; here they are
      rationals, and [>=] is the order on [Q].
    - Network, file system and subprocess behaviour enter as explicit
      oracles; effects are recorded in a state that is passed along.
    - The concurrent parts take the order of events as an argument (the
      schedule of the event loop, the order of completion of the
      searches), and the properties are proved for every such order. *)

From Stdlib Require Import QArith.
From Stdlib Require Import Ascii String.
From Stdlib Require Import Permutation.
From stdpp Require Import base strings list gmap pretty.

Close Scope Q_scope.
Open Scope string_scope.
Open Scope list_scope.

(* ===================================================================== *)
(** * Python strings                                                      *)
(* ===================================================================== *)

Module pystr.

(** Truth value of an optional string: [None] and the empty string are
    false, everything else is true. *)
Definition truthy (v : option string) : bool :=
  match v with
  | Some (String _ _) => true
  | _ => false
  end.

Definition nonempty (s : string) : bool :=
  match s with
  | String _ _ => true
  | EmptyString => false
  end.

Definition code (c : ascii) : nat := nat_of_ascii c.

Definition between (lo hi : nat) (c : ascii) : bool :=
  (lo <=? code c)%nat && (code c <=? hi)%nat.

(** [str.lower] on one character. *)
Definition lower_ascii (c : ascii) : ascii :=
  if between 65 90 c then ascii_of_nat (code c + 32) else c.

(** [str.lower]. *)
Fixpoint lower (s : string) : string :=
  match s with
  | EmptyString => EmptyString
  | String c r => String (lower_ascii c) (lower r)
  end.

(** The class [\s], which is also what [str.split] splits on: tab, line
    feed, vertical tab, form feed, carriage return, the four separators
    0x1c-0x1f, and the space. *)
Definition is_space (c : ascii) : bool :=
  between 9 13 c || between 28 32 c.

(** The class [\w]: letters, digits and the underscore. *)
Definition is_word (c : ascii) : bool :=
  between 48 57 c || between 65 90 c || between 97 122 c || (code c =? 95)%nat.

(** Map over the characters of a string. *)
Fixpoint map_chars (f : ascii -> ascii) (s : string) : string :=
  match s with
  | EmptyString => EmptyString
  | String c r => String (f c) (map_chars f r)
  end.

(** Keep the characters that satisfy [keep]. *)
Fixpoint filter_chars (keep : ascii -> bool) (s : string) : string :=
  match s with
  | EmptyString => EmptyString
  | String c r => if keep c then String c (filter_chars keep r) else filter_chars keep r
  end.

(** [str.split()] with no argument: the maximal runs of non-space
    characters.  [cur] is the run being read, last character first. *)
Fixpoint split_acc (s : string) (cur : list ascii) : list string :=
  match s with
  | EmptyString =>
      match cur with
      | [] => []
      | _ => [string_of_list_ascii (rev cur)]
      end
  | String c r =>
      if is_space c then
        match cur with
        | [] => split_acc r []
        | _ => string_of_list_ascii (rev cur) :: split_acc r []
        end
      else split_acc r (c :: cur)
  end.

Definition split (s : string) : list string := split_acc s [].

(** [sep.join(parts)]. *)
Definition join (sep : string) (parts : list string) : string :=
  String.concat sep parts.

(** [s[:n]]. *)
Definition take (n : nat) (s : string) : string := String.substring 0 n s.

(** [needle in s]. *)
Fixpoint contains (needle s : string) : bool :=
  String.prefix needle s ||
  match s with
  | EmptyString => false
  | String _ r => contains needle r
  end.

(** [s.endswith(suffix)]. *)
Definition endswith (s suffix : string) : bool :=
  let n := String.length s in
  let k := String.length suffix in
  (k <=? n)%nat && String.eqb (String.substring (n - k) k s) suffix.

(** [s.replace(a, b)] for single characters [a] and [b]. *)
Definition replace_char (a b : ascii) (s : string) : string :=
  map_chars (fun c => if Ascii.eqb c a then b else c) s.

(** [s.split(sep)[-1]] for a single character [sep]: what follows the last
    occurrence of [sep], or all of [s] when there is none. *)
Fixpoint after_last (sep : ascii) (s : string) : string :=
  match s with
  | EmptyString => EmptyString
  | String c r =>
      if contains (String sep EmptyString) r then after_last sep r
      else if Ascii.eqb c sep then r
      else s
  end.

(** Every character of [s] satisfies [P]. *)
Fixpoint all_chars (P : ascii -> bool) (s : string) : bool :=
  match s with
  | EmptyString => true
  | String c r => P c && all_chars P r
  end.

(** The characters of ASCII, on which [lower], [\w] and [\s] are as given
    here; beyond them Python follows the Unicode tables. *)
Definition is_ascii (c : ascii) : bool := (code c <? 128)%nat.

End pystr.

(* ===================================================================== *)
(** * Records                                                             *)
(* ===================================================================== *)

(** The nested [externalIds] object of a Semantic Scholar record. *)
Record external_ids := { DOI : option string }.

(** [openAccessPdf] is an object with a [url] key in Semantic Scholar
    results, and is read as the URL itself when it is not an object. *)
Inductive open_access :=
| OADict (url : option string)
| OAValue (v : string).

(** A raw record: the keys the pipeline reads. *)
Record paper := {
  doi : option string;
  externalIds : option external_ids;
  title : option string;
  arxiv_id : option string;
  post_id : option string;
  paperId : option string;
  pdf_url : option string;
  openAccessPdf : option open_access;
}.

(** The record with no key at all. *)
Definition empty_paper : paper :=
  {| doi := None; externalIds := None; title := None; arxiv_id := None;
     post_id := None; paperId := None; pdf_url := None; openAccessPdf := None |}.

(* ===================================================================== *)
(** * dedup_papers.py                                                     *)
(* ===================================================================== *)

Module dedup_papers.
Import pystr.

(** [normalize_title]: lower-case, every character that is neither a word
    character nor a space becomes a space, runs of spaces collapse.  The
    classes are those of ASCII ([is_ascii]); on other characters Python
    follows the Unicode tables. *)
Definition normalize_title (title : string) : string :=
  if nonempty title then
    let title := lower title in
    let title := map_chars (fun c => if is_word c || is_space c then c else " "%char) title in
    join " " (split title)
  else EmptyString.

(** [get_doi]: the [doi] key, then [externalIds.DOI], lower-cased. *)
Definition get_doi (p : paper) : option string :=
  if truthy (doi p) then lower <$> doi p
  else
    match externalIds p with
    | Some ids => if truthy (DOI ids) then lower <$> DOI ids else None
    | None => None
    end.

(** [get_title]: the [title] key, the empty string when it is absent. *)
Definition get_title (p : paper) : string := default EmptyString (title p).

(** The loop's variables. *)
Record dedup_state := {
  seen_dois : gset string;
  seen_titles : list string;
  deduplicated : list paper;
  duplicates_removed : nat;
}.

Definition dedup_init : dedup_state :=
  {| seen_dois := ∅; seen_titles := []; deduplicated := []; duplicates_removed := 0 |}.

(** [duplicates_removed += 1; continue]. *)
Definition drop (dois : gset string) (st : dedup_state) : dedup_state :=
  {| seen_dois := dois; seen_titles := seen_titles st;
     deduplicated := deduplicated st;
     duplicates_removed := S (duplicates_removed st) |}.

Section with_similarity.

(** [fuzz.token_sort_ratio(a, b) / 100], a function of the rapidfuzz
    package; the loop is given for any such score. *)
Variable similarity : string -> string -> Q.

(** The inner [for seen_title in seen_titles] loop: is some seen title at
    least [threshold]-similar to [normalized]? *)
Fixpoint is_duplicate (threshold : Q) (normalized : string) (seen : list string) : bool :=
  match seen with
  | [] => false
  | seen_title :: rest =>
      if Qle_bool threshold (similarity normalized seen_title) then true
      else is_duplicate threshold normalized rest
  end.

(** The title check of one iteration; [dois] is the set of seen DOIs after
    the DOI check. *)
Definition title_step (threshold : Q) (dois : gset string) (st : dedup_state) (p : paper)
  : dedup_state :=
  let title := get_title p in
  let normalized := normalize_title title in
  if nonempty title && nonempty normalized then
    if is_duplicate threshold normalized (seen_titles st) then drop dois st
    else
      {| seen_dois := dois; seen_titles := seen_titles st ++ [normalized];
         deduplicated := deduplicated st ++ [p];
         duplicates_removed := duplicates_removed st |}
  else
    {| seen_dois := dois; seen_titles := seen_titles st;
       deduplicated := deduplicated st ++ [p];
       duplicates_removed := duplicates_removed st |}.

(** One iteration of [for paper in papers]. *)
Definition dedup_step (threshold : Q) (st : dedup_state) (p : paper) : dedup_state :=
  match get_doi p with
  | Some (String _ _ as doi) =>
      if bool_decide (doi ∈ seen_dois st) then drop (seen_dois st) st
      else title_step threshold ({[ doi ]} ∪ seen_dois st) st p
  | _ => title_step threshold (seen_dois st) st p
  end.

(** [deduplicate_papers(papers, threshold)]. *)
Definition deduplicate_papers (papers : list paper) (threshold : Q) : list paper :=
  deduplicated (fold_left (dedup_step threshold) papers dedup_init).

(** The state in which only the seen DOIs and titles are set. *)
Definition seen (dois : gset string) (titles : list string) : dedup_state :=
  {| seen_dois := dois; seen_titles := titles; deduplicated := []; duplicates_removed := 0 |}.

(** What the loop appends to [deduplicated] while it reads [papers], when
    it enters with the given seen DOIs and titles (see
    [deduplicate_papers_retained]). *)
Fixpoint retained (threshold : Q) (dois : gset string) (titles : list string)
    (papers : list paper) : list paper :=
  match papers with
  | [] => []
  | p :: rest =>
      let st := dedup_step threshold (seen dois titles) p in
      deduplicated st ++ retained threshold (seen_dois st) (seen_titles st) rest
  end.

End with_similarity.

(** The DOI check of an iteration: is the record's DOI among [dois]? *)
Definition doi_seen (dois : gset string) (p : paper) : bool :=
  match get_doi p with
  | Some doi => bool_decide (doi ∈ dois)
  | None => false
  end.

(** The seen DOIs once the record has passed the DOI check. *)
Definition add_doi (dois : gset string) (p : paper) : gset string :=
  match get_doi p with
  | Some doi => {[ doi ]} ∪ dois
  | None => dois
  end.

(** Identity-equivalence of two records, as section 3 of the specification
    words it: the same DOI up to case, or normalized titles whose
    similarity reaches the threshold. *)
Definition identity_equivalent (similarity : string -> string -> Q) (threshold : Q)
    (a b : paper) : Prop :=
  (exists d, get_doi a = Some d /\ get_doi b = Some d) \/
  (threshold <= similarity (normalize_title (get_title b)) (normalize_title (get_title a)))%Q.

(** No two elements of [out] are identity-equivalent. *)
Definition no_equivalent_pair (similarity : string -> string -> Q) (threshold : Q)
    (out : list paper) : Prop :=
  ForallOrdPairs (fun a b => ~ identity_equivalent similarity threshold a b) out.

(** What the loop establishes between a retained record [a] and a record
    [b] retained after it: their DOIs differ, and when both normalized
    titles are non-empty the score of [b]'s against [a]'s is below the
    threshold. *)
Definition told_apart (similarity : string -> string -> Q) (threshold : Q)
    (a b : paper) : Prop :=
  (forall d, get_doi a = Some d -> get_doi b <> Some d) /\
  (nonempty (normalize_title (get_title a)) = true ->
   nonempty (normalize_title (get_title b)) = true ->
   (similarity (normalize_title (get_title b)) (normalize_title (get_title a)) < threshold)%Q).

End dedup_papers.

(* ===================================================================== *)
(** * The similarity score                                                *)
(* ===================================================================== *)

Module rapidfuzz.
Import pystr.

(** Length of a longest common subsequence. *)
Fixpoint lcs (a b : list ascii) : nat :=
  match a with
  | [] => 0
  | x :: a' =>
      (fix inner (b : list ascii) : nat :=
         match b with
         | [] => 0
         | y :: b' =>
             if Ascii.eqb x y then S (lcs a' b')
             else Nat.max (lcs a' b) (inner b')
         end) b
  end.

Fixpoint insert_token (t : string) (sorted : list string) : list string :=
  match sorted with
  | [] => [t]
  | u :: rest => if String.leb t u then t :: sorted else u :: insert_token t rest
  end.

(** [sorted(tokens)]: by code points, lexicographically. *)
Definition sort_tokens (tokens : list string) : list string :=
  fold_right insert_token [] tokens.

(** The normalized insertion-deletion similarity: [2 * lcs / (len a + len b)],
    and 1 for two empty strings. *)
Definition indel_similarity (a b : string) : Q :=
  let n := (String.length a + String.length b)%nat in
  match n with
  | O => 1%Q
  | S _ =>
      (Z.of_nat (2 * lcs (list_ascii_of_string a) (list_ascii_of_string b)) # Pos.of_nat n)%Q
  end.

(** Modelled from the spec: the score of section 4.2, a token-order-insensitive
    normalized edit similarity in [0,1].  The source calls
    [fuzz.token_sort_ratio] of the rapidfuzz package, which is not part of
    the repository: the tokens of each string are sorted and joined by one
    space, and the two results are compared by [indel_similarity] (scaled to
    0..100 there, and divided by 100 again by the caller). *)
Definition token_sort_similarity (a b : string) : Q :=
  indel_similarity (join " " (sort_tokens (split a))) (join " " (sort_tokens (split b))).

End rapidfuzz.

(* ===================================================================== *)
(** * download_pdfs.py                                                    *)
(* ===================================================================== *)

Module download_pdfs.
Import pystr.

Definition MAX_CONCURRENT_DOWNLOADS : nat := 5.
Definition MAX_RETRIES : nat := 5.
Definition TIMEOUT_SECONDS : nat := 120.

(** The characters the first substitution removes: less-than, greater-than,
    colon, double quote, slash, backslash, bar, question mark, asterisk. *)
Definition problematic (c : ascii) : bool :=
  bool_decide (code c ∈ [60; 62; 58; 34; 47; 92; 124; 63; 42]).

(** [re.sub(r"\s+", "_", name)]: every maximal run of spaces becomes one
    underscore.  [in_run] tells that the previous character was a space. *)
Fixpoint squeeze_spaces (in_run : bool) (s : string) : string :=
  match s with
  | EmptyString => EmptyString
  | String c r =>
      if is_space c then
        if in_run then squeeze_spaces true r
        else String "_" (squeeze_spaces true r)
      else String c (squeeze_spaces false r)
  end.

(** [sanitize_filename]. *)
Definition sanitize_filename (name : string) : string :=
  let name := filter_chars (fun c => negb (problematic c)) name in
  let name := squeeze_spaces false name in
  take 100 name.

(** The value of a key when it is true in Python's sense. *)
Definition pick (v : option string) : option string :=
  if truthy v then v else None.

(** [get_paper_id].  The last branch is that of a title which is a string
    or is absent; on a title that is null the code raises [TypeError] at
    [title[:50]], which the properties that need the id of such a record
    exclude by [id_defined] below. *)
Definition get_paper_id (p : paper) : string :=
  match pick (doi p) with
  | Some doi => sanitize_filename (replace_char "/" "_" doi)
  | None =>
  match pick (arxiv_id p) with
  | Some arxiv_id =>
      let arxiv_id :=
        if contains "arxiv.org" arxiv_id then after_last "/" arxiv_id else arxiv_id in
      sanitize_filename ("arxiv_" +:+ arxiv_id)
  | None =>
  match pick (post_id p) with
  | Some post_id => sanitize_filename ("lw_" +:+ post_id)
  | None =>
  match pick (paperId p) with
  | Some paperId => sanitize_filename ("s2_" +:+ paperId)
  | None =>
      let title := default "unknown" (title p) in
      sanitize_filename (take 50 title)
  end end end end.

(** [get_pdf_url].  An [openAccessPdf] object without a [url] key, the
    empty object included, gives [None]. *)
Definition get_pdf_url (p : paper) : option string :=
  match pick (pdf_url p) with
  | Some u => Some u
  | None =>
      match openAccessPdf p with
      | Some (OADict url) => url
      | Some (OAValue v) => pick (Some v)
      | None => None
      end
  end.

(** [output_dir / f"{paper_id}.pdf"], for an [output_dir] written as
    pathlib prints it (no trailing slash, not the directory [.]). *)
Definition target_path (output_dir paper_id : string) : string :=
  output_dir +:+ "/" +:+ paper_id +:+ ".pdf".

(** ** The world a download acts on *)

(** What [aiofiles.open(output_path, "wb")] followed by [f.write(content)]
    does: it succeeds; or [open] raises and nothing is created; or the file
    is created (truncated), [written] bytes reach it and an exception is
    raised. *)
Inductive write_result :=
| WriteOk
| OpenRaises (error : string)
| WriteRaises (written : nat) (error : string).

(** What one attempt meets: [client.get] raises (timeout, connection
    failure, ...); or [raise_for_status] raises [HTTPStatusError]; or a
    response arrives, with its content type and body, and the body is
    written with the given result. *)
Inductive attempt_result :=
| GetRaises (error : string)
| StatusError (status_code : nat)
| Response (content_type : string) (content : list Byte.byte) (w : write_result).

Inductive event :=
| EGet (url : string) (attempt : nat)
| ESleep (seconds : nat)
| EPrint (message : string).

(** Files by path, and the network calls, sleeps and diagnostics so far. *)
Record world := {
  fs : gmap string (list Byte.byte);
  trace : list event;
}.

Definition emit (e : event) (w : world) : world :=
  {| fs := fs w; trace := trace w ++ [e] |}.

Definition write_file (path : string) (data : list Byte.byte) (w : world) : world :=
  {| fs := <[path := data]> (fs w); trace := trace w |}.

Definition exists_ (path : string) (w : world) : bool :=
  bool_decide (is_Some (fs w !! path)).

(** The statuses after which no retry is made. *)
Definition permanent (status_code : nat) : bool :=
  bool_decide (status_code ∈ [403; 404; 451]).

(** [if attempt < MAX_RETRIES - 1: await asyncio.sleep(2**attempt)]. *)
Definition backoff (attempt : nat) (w : world) : world :=
  if (attempt <? MAX_RETRIES - 1)%nat then emit (ESleep (2 ^ attempt)) w else w.

(** The [except Exception as e] handler. *)
Definition on_exception (paper_id error : string) (attempt : nat) (w : world) : world :=
  if (attempt <? MAX_RETRIES - 1)%nat then emit (ESleep (2 ^ attempt)) w
  else emit (EPrint ("    Failed to download " +:+ paper_id +:+ ": " +:+ error)) w.

(** The body of [for attempt in range(MAX_RETRIES)]: [Some b] when it
    returns [b], [None] when the loop goes on. *)
Definition attempt (net : nat -> attempt_result) (url output_path paper_id : string)
    (n : nat) (w : world) : world * option bool :=
  let w := emit (EGet url n) w in
  match net n with
  | Response content_type content wr =>
      if negb (contains "pdf" (lower content_type)) && negb (endswith url ".pdf")
         && contains "html" (lower content_type)
      then (w, Some false)
      else
        match wr with
        | WriteOk => (write_file output_path content w, Some true)
        | OpenRaises e => (on_exception paper_id e n w, None)
        | WriteRaises k e =>
            (on_exception paper_id e n (write_file output_path (firstn k content) w), None)
        end
  | StatusError status_code =>
      if permanent status_code then (w, Some false)
      else (backoff n w, None)
  | GetRaises e => (on_exception paper_id e n w, None)
  end.

Fixpoint attempts (net : nat -> attempt_result) (url output_path paper_id : string)
    (range : list nat) (w : world) : world * bool :=
  match range with
  | [] => (w, false)
  | n :: rest =>
      match attempt net url output_path paper_id n w with
      | (w, Some result) => (w, result)
      | (w, None) => attempts net url output_path paper_id rest w
      end
  end.

(** [download_pdf]; [net] answers the attempts of this call by number. *)
Definition download_pdf (net : nat -> attempt_result) (url output_path paper_id : string)
    (w : world) : world * bool :=
  attempts net url output_path paper_id (seq 0 MAX_RETRIES) w.

(** The errors after which the loop goes on to the next attempt without
    having touched the file system: an exception of [client.get], or a
    status error outside the permanent ones. *)
Definition transient (r : attempt_result) : bool :=
  match r with
  | GetRaises _ => true
  | StatusError status_code => negb (permanent status_code)
  | Response _ _ _ => false
  end.

(** What follows the request of attempt [n] when it meets [r], one of the
    errors above: the backoff sleep, or after the last attempt the
    diagnostic of the [except Exception] handler. *)
Definition after_error (paper_id : string) (n : nat) (r : attempt_result) : list event :=
  if (n <? MAX_RETRIES - 1)%nat then [ESleep (2 ^ n)]
  else
    match r with
    | GetRaises e => [EPrint ("    Failed to download " +:+ paper_id +:+ ": " +:+ e)]
    | _ => []
    end.

(** The target path holds what it held before, or the whole body of a
    response that [net] delivers. *)
Definition whole_or_untouched (net : nat -> attempt_result) (path : string)
    (before after : world) : Prop :=
  fs after !! path = fs before !! path \/
  exists n content_type content wr,
    net n = Response content_type content wr /\ fs after !! path = Some content.

(** ** Stats and tasks *)

Record failed_paper := {
  fp_id : string;
  fp_title : option string;
  fp_url : string;
}.

Record stats := {
  total : nat;
  downloaded : nat;
  skipped_no_url : nat;
  skipped_exists : nat;
  failed : nat;
  downloaded_files : list string;
  failed_papers : list failed_paper;
}.

Definition stats_init (papers : list paper) : stats :=
  {| total := length papers; downloaded := 0; skipped_no_url := 0; skipped_exists := 0;
     failed := 0; downloaded_files := []; failed_papers := [] |}.

(** The terminal states of a record. *)
Inductive outcome := Downloaded | SkippedExisting | SkippedNoUrl | Failed.

(** Where the coroutine [download_with_semaphore(paper)] stands: not yet
    started; stopped at [async with semaphore]; inside it, before
    [download_pdf]; returned. *)
Inductive task :=
| Created
| Waiting (paper_id pdf_url output_path : string)
| Running (paper_id pdf_url output_path : string)
| Done (o : outcome).

(** What the event loop holds: the world, the shared [stats] dictionary,
    the permits left in the semaphore, and one coroutine per paper. *)
Record state := {
  st_world : world;
  st_stats : stats;
  permits : nat;
  tasks : list task;
}.

Definition count_no_url (s : stats) : stats :=
  {| total := total s; downloaded := downloaded s;
     skipped_no_url := skipped_no_url s + 1; skipped_exists := skipped_exists s;
     failed := failed s; downloaded_files := downloaded_files s;
     failed_papers := failed_papers s |}.

Definition count_exists (output_path : string) (s : stats) : stats :=
  {| total := total s; downloaded := downloaded s;
     skipped_no_url := skipped_no_url s; skipped_exists := skipped_exists s + 1;
     failed := failed s; downloaded_files := downloaded_files s ++ [output_path];
     failed_papers := failed_papers s |}.

Definition count_downloaded (output_path : string) (s : stats) : stats :=
  {| total := total s; downloaded := downloaded s + 1;
     skipped_no_url := skipped_no_url s; skipped_exists := skipped_exists s;
     failed := failed s; downloaded_files := downloaded_files s ++ [output_path];
     failed_papers := failed_papers s |}.

Definition count_failed (entry : failed_paper) (s : stats) : stats :=
  {| total := total s; downloaded := downloaded s;
     skipped_no_url := skipped_no_url s; skipped_exists := skipped_exists s;
     failed := failed s + 1; downloaded_files := downloaded_files s;
     failed_papers := failed_papers s ++ [entry] |}.

#[global] Instance outcome_eq_dec : EqDecision outcome.
Proof. solve_decision. Defined.

#[global] Instance task_eq_dec : EqDecision task.
Proof. solve_decision. Defined.

(** What the records contribute, each by its own coroutine's state. *)
Fixpoint collect {B : Type} (f : paper -> task -> list B) (papers : list paper)
    (ts : list task) : list B :=
  match papers, ts with
  | p :: papers, t :: ts => f p t ++ collect f papers ts
  | _, _ => []
  end.

(** One mark for a record that ended in [o]. *)
Definition ended_in (o : outcome) (p : paper) (t : task) : list unit :=
  if decide (t = Done o) then [()] else [].

(** The number of records that ended in [o]. *)
Definition count_outcome (o : outcome) (papers : list paper) (ts : list task) : nat :=
  length (collect (ended_in o) papers ts).

(** The target path of a record that ended in [Downloaded] or in
    [SkippedExisting]. *)
Definition file_of (output_dir : string) (p : paper) (t : task) : list string :=
  match t with
  | Done Downloaded | Done SkippedExisting => [target_path output_dir (get_paper_id p)]
  | _ => []
  end.

(** The entry (id, title, url) of a record that ended in [Failed]. *)
Definition failure_of (p : paper) (t : task) : list failed_paper :=
  match t with
  | Done Failed =>
      [{| fp_id := get_paper_id p; fp_title := title p;
          fp_url := default EmptyString (get_pdf_url p) |}]
  | _ => []
  end.

(** A coroutine that has started and is not inside the semaphore. *)
Definition parked (t : task) : bool :=
  match t with
  | Waiting _ _ _ | Done _ => true
  | _ => false
  end.

(** A coroutine inside [async with semaphore]. *)
Definition running (t : task) : bool :=
  match t with
  | Running _ _ _ => true
  | _ => false
  end.

(** The number of coroutines inside [async with semaphore]. *)
Fixpoint in_flight (ts : list task) : nat :=
  match ts with
  | [] => 0
  | t :: ts => (if running t then 1 else 0) + in_flight ts
  end.

(** The path a suspended coroutine is going to write. *)
Definition pending_path (t : task) : option string :=
  match t with
  | Waiting _ _ output_path | Running _ _ output_path => Some output_path
  | _ => None
  end.

(** A suspended coroutine holds the id, link and path of its own record. *)
Definition consistent (output_dir : string) (p : paper) (t : task) : Prop :=
  match t with
  | Waiting paper_id pdf_url output_path
  | Running paper_id pdf_url output_path =>
      paper_id = get_paper_id p /\ pick (get_pdf_url p) = Some pdf_url /\
      output_path = target_path output_dir paper_id
  | _ => True
  end.

Section download_all.

(** [net i n] is what attempt [n] of the download of paper number [i] meets. *)
Variable net : nat -> nat -> attempt_result.
Variable papers : list paper.
Variable output_dir : string.

Definition set_task (i : nat) (t : task) (st : state) : state :=
  {| st_world := st_world st; st_stats := st_stats st; permits := permits st;
     tasks := <[i := t]> (tasks st) |}.

(** [download_with_semaphore(paper)] from its start to its first
    suspension or return. *)
Definition start (i : nat) (p : paper) (st : state) : state :=
  let paper_id := get_paper_id p in
  match pick (get_pdf_url p) with
  | None =>
      {| st_world := st_world st; st_stats := count_no_url (st_stats st);
         permits := permits st; tasks := <[i := Done SkippedNoUrl]> (tasks st) |}
  | Some pdf_url =>
      let output_path := target_path output_dir paper_id in
      if exists_ output_path (st_world st) then
        {| st_world := st_world st; st_stats := count_exists output_path (st_stats st);
           permits := permits st; tasks := <[i := Done SkippedExisting]> (tasks st) |}
      else set_task i (Waiting paper_id pdf_url output_path) st
  end.

(** Entering [async with semaphore]: possible when a permit is left. *)
Definition acquire (i : nat) (paper_id pdf_url output_path : string) (st : state) : state :=
  match permits st with
  | O => st
  | S k =>
      {| st_world := st_world st; st_stats := st_stats st; permits := k;
         tasks := <[i := Running paper_id pdf_url output_path]> (tasks st) |}
  end.

(** The body of [async with semaphore], and the release on leaving it. *)
Definition finish (i : nat) (p : paper) (paper_id pdf_url output_path : string) (st : state)
  : state :=
  let '(w, success) := download_pdf (net i) pdf_url output_path paper_id (st_world st) in
  if success then
    {| st_world := emit (EPrint ("  Downloaded: " +:+ paper_id)) w;
       st_stats := count_downloaded output_path (st_stats st);
       permits := permits st + 1; tasks := <[i := Done Downloaded]> (tasks st) |}
  else
    {| st_world := w;
       st_stats := count_failed {| fp_id := paper_id; fp_title := title p; fp_url := pdf_url |}
                     (st_stats st);
       permits := permits st + 1; tasks := <[i := Done Failed]> (tasks st) |}.

(** [download_with_semaphore(paper)], resumed where it stands.  asyncio
    runs one coroutine at a time and switches only at an [await], so the
    test of the link and of the path with its update of [stats] is one
    step, and so is the update of [stats] after [download_pdf].  The
    requests and sleeps of one [download_pdf] call, which act on the world
    and never on [stats], are gathered into that last step. *)
Definition download_with_semaphore (i : nat) (p : paper) (t : task) (st : state) : state :=
  match t with
  | Created => start i p st
  | Waiting paper_id pdf_url output_path => acquire i paper_id pdf_url output_path st
  | Running paper_id pdf_url output_path => finish i p paper_id pdf_url output_path st
  | Done _ => st
  end.

(** The event loop resumes coroutine [i]. *)
Definition step (st : state) (i : nat) : state :=
  match papers !! i, tasks st !! i with
  | Some p, Some t => download_with_semaphore i p t st
  | _, _ => st
  end.

Definition is_done (t : task) : bool :=
  match t with
  | Done _ => true
  | _ => false
  end.

Definition all_done (st : state) : bool := forallb is_done (tasks st).

(** The state when [asyncio.gather] is awaited: one coroutine per paper,
    none started. *)
Definition initial (max_concurrent : nat) (w : world) : state :=
  {| st_world := w; st_stats := stats_init papers; permits := max_concurrent;
     tasks := replicate (length papers) Created |}.

(** The event loop run along [schedule], the coroutines it resumes in turn. *)
Definition run (max_concurrent : nat) (w : world) (schedule : list nat) : state :=
  fold_left step schedule (initial max_concurrent w).

(** [download_all]: [gather] returns once every coroutine has returned. *)
Definition download_all (max_concurrent : nat) (w : world) (schedule : list nat)
  : option stats :=
  let st := run max_concurrent w schedule in
  if all_done st then Some (st_stats st) else None.

(** The stats account for the coroutines: every suspended coroutine holds
    its own record's data, each counter is the number of records that ended
    in its outcome, and the two lists hold, in some order, what the ended
    records contribute. *)
Definition accounted (st : state) : Prop :=
  Forall2 (consistent output_dir) papers (tasks st) /\
  total (st_stats st) = length papers /\
  downloaded (st_stats st) = count_outcome Downloaded papers (tasks st) /\
  skipped_no_url (st_stats st) = count_outcome SkippedNoUrl papers (tasks st) /\
  skipped_exists (st_stats st) = count_outcome SkippedExisting papers (tasks st) /\
  failed (st_stats st) = count_outcome Failed papers (tasks st) /\
  downloaded_files (st_stats st) ≡ₚ collect (file_of output_dir) papers (tasks st) /\
  failed_papers (st_stats st) ≡ₚ collect failure_of papers (tasks st).

(** The order in which asyncio resumes the coroutines when every download
    completes in the order of the list: each one is started, then each one
    takes its permit and downloads. *)
Definition in_order : list nat :=
  seq 0 (length papers) ++ flat_map (fun i => [i; i]) (seq 0 (length papers)).

End download_all.

(** ** Vocabulary for the properties *)

(** A character that [sanitize_filename] lets through unchanged. *)
(** The records whose id is settled without a doubt about the title: one
    of the four id keys is true, or the title is a string.  For a record
    with none of the keys and a title that is null, the code raises
    [TypeError] at [title[:50]]. *)
Definition id_defined (p : paper) : bool :=
  truthy (doi p) || truthy (arxiv_id p) || truthy (post_id p) || truthy (paperId p)
  || bool_decide (is_Some (title p)).

Definition safe_char (c : ascii) : bool :=
  negb (problematic c) && negb (is_space c).

(** A DOI that the id keeps as it is but for its slashes: at most 100
    characters, each a slash or a safe character, none an underscore. *)
Definition plain_doi (d : string) : bool :=
  all_chars (fun c => (safe_char c || Ascii.eqb c "/") && negb (Ascii.eqb c "_")) d
  && (String.length d <=? 100)%nat.

(** The test by which [download_pdf] takes a response for a landing page:
    no [pdf] in the content type, a link that does not end in [.pdf], and
    [html] in the content type. *)
Definition landing_page (url content_type : string) : bool :=
  negb (contains "pdf" (lower content_type)) && negb (endswith url ".pdf")
  && contains "html" (lower content_type).

(** The number of requests in a trace. *)
Fixpoint requests (tr : list event) : nat :=
  match tr with
  | [] => 0
  | EGet _ _ :: tr => S (requests tr)
  | _ :: tr => requests tr
  end.

(** The seconds slept in a trace. *)
Fixpoint slept (tr : list event) : nat :=
  match tr with
  | [] => 0
  | ESleep seconds :: tr => seconds + slept tr
  | _ :: tr => slept tr
  end.

(** The sleep that follows a failed attempt: [2 ** attempt] seconds, none
    after the last attempt. *)
Definition pause (attempt : nat) : nat :=
  if (attempt <? MAX_RETRIES - 1)%nat then 2 ^ attempt else 0.

End download_pdfs.

(* ===================================================================== *)
(** * run_searches.py                                                     *)
(* ===================================================================== *)

Module run_searches.

(** What [subprocess.run(cmd, capture_output=True, text=True, timeout=300)]
    does: the process ends with a return code and its standard error; or
    300 seconds elapse; or another exception is raised. *)
Inductive process_result :=
| Completed (returncode : Z) (stderr : string)
| TimeoutExpired
| Raised (error : string).

(** [run_search]: the script's name, its exit code and its diagnostic. *)
Definition run_search (name : string) (r : process_result) : string * Z * string :=
  match r with
  | Completed returncode stderr => (name, returncode, stderr)
  | TimeoutExpired => (name, (-1)%Z, "Timeout after 300 seconds")
  | Raised e => (name, (-1)%Z, e)
  end.

Definition exit_code (result : string * Z * string) : Z := snd (fst result).

(** The three scripts [main] submits. *)
Definition searches : list string :=
  ["search_semantic_scholar"; "search_arxiv"; "search_google_scholar"].

(** [sum(1 for _, code, _ in results if code == 0)]. *)
Definition success_count (results : list (string * Z * string)) : nat :=
  length (filter (fun r => exit_code r = 0%Z) results).

(** [main], from the submission of the searches to [sys.exit]: [proc]
    says how each script's process ends, [completed] is the order in which
    [as_completed] yields them.  The value is the exit status. *)
Definition main (proc : string -> process_result) (completed : list string) : Z :=
  let results := map (fun name => run_search name (proc name)) completed in
  if (success_count results =? 0)%nat then 1%Z else 0%Z.

End run_searches.

(* ===================================================================== *)
(** * generate_catalog.py                                                 *)
(* ===================================================================== *)

Module generate_catalog.
Import pystr.

(** The body of [for paper in papers] in [load_papers]: up to four
    assignments [lookup[key] = paper], a later one replacing an earlier one
    under the same key. *)
Definition add_paper (lookup : gmap string paper) (p : paper) : gmap string paper :=
  let lookup :=
    match download_pdfs.pick (doi p) with
    | Some doi => <[replace_char "/" "_" doi := p]> lookup
    | None => lookup
    end in
  let lookup :=
    match download_pdfs.pick (arxiv_id p) with
    | Some arxiv_id =>
        let arxiv_id :=
          if contains "arxiv.org" arxiv_id then after_last "/" arxiv_id else arxiv_id in
        <["arxiv_" +:+ arxiv_id := p]> lookup
    | None => lookup
    end in
  let lookup :=
    match download_pdfs.pick (post_id p) with
    | Some post_id => <["lw_" +:+ post_id := p]> lookup
    | None => lookup
    end in
  match download_pdfs.pick (paperId p) with
  | Some paperId => <["s2_" +:+ paperId := p]> lookup
  | None => lookup
  end.

(** [load_papers], on the list parsed from the file. *)
Definition load_papers (papers : list paper) : gmap string paper :=
  fold_left add_paper papers ∅.

(** The keys of the assignments made for one record, in their order. *)
Definition keys (p : paper) : list string :=
  match download_pdfs.pick (doi p) with
  | Some doi => [replace_char "/" "_" doi]
  | None => []
  end ++
  match download_pdfs.pick (arxiv_id p) with
  | Some arxiv_id =>
      ["arxiv_" +:+ (if contains "arxiv.org" arxiv_id then after_last "/" arxiv_id
                     else arxiv_id)]
  | None => []
  end ++
  match download_pdfs.pick (post_id p) with
  | Some post_id => ["lw_" +:+ post_id]
  | None => []
  end ++
  match download_pdfs.pick (paperId p) with
  | Some paperId => ["s2_" +:+ paperId]
  | None => []
  end.

End generate_catalog.

(* ===================================================================== *)
(** * search_semantic_scholar.py                                          *)
(* ===================================================================== *)

Module search_semantic_scholar.

(** The [externalIds] object of a record. *)
Record s2_ids := {
  ids_DOI : option string;
  ids_ArXiv : option string;
}.

(** A record of the search API with the keys [search_query] reads or sets.
    [s2_externalIds] is [None] for an absent key, a null and the empty
    object, which Python's truth test does not tell apart. *)
Record s2_paper := {
  s2_paperId : option string;
  s2_title : option string;
  s2_externalIds : option s2_ids;
  s2_source : option string;
  s2_search_query : option string;
  s2_doi : option string;
  s2_arxiv_id : option string;
}.

(** The body of [for paper in batch]. *)
Definition tag (query : string) (paper : s2_paper) : s2_paper :=
  {| s2_paperId := s2_paperId paper;
     s2_title := s2_title paper;
     s2_externalIds := s2_externalIds paper;
     s2_source := Some "semantic_scholar";
     s2_search_query := Some query;
     s2_doi :=
       match s2_externalIds paper with
       | Some ids => ids_DOI ids
       | None => s2_doi paper
       end;
     s2_arxiv_id :=
       match s2_externalIds paper with
       | Some ids => ids_ArXiv ids
       | None => s2_arxiv_id paper
       end |}.

(** What one request meets: [client.get] or the decoding of the body
    raises; or a response arrives with an error status ([error] is the text
    of the exception [raise_for_status] would raise); or a page arrives,
    with its [data] and its [next]. *)
Inductive response :=
| GetRaises (error : string)
| StatusError (status_code : nat) (error : string)
| Page (batch : list s2_paper) (next : option nat).

Inductive event :=
| ERequest (offset limit : nat)
| ESleep (seconds : nat)
| EPrint (message : string).

(** The variables of [search_query], the number of requests sent and the
    requests, sleeps and diagnostics so far. *)
Record search_state := {
  results : list s2_paper;
  offset : nat;
  sent : nat;
  log : list event;
}.

Definition initial : search_state :=
  {| results := []; offset := 0; sent := 0; log := [] |}.

Definition emit (e : event) (st : search_state) : search_state :=
  {| results := results st; offset := offset st; sent := sent st; log := log st ++ [e] |}.

(** How the body of the [for] loop ends: [return results], [break], or on
    to the next attempt. *)
Inductive flow :=
| Return_ (st : search_state)
| Break (st : search_state)
| Continue (st : search_state).

(** The responses after which the attempt is given up and, unless it was
    the fifth, another is made: an exception or an error status other
    than 429. *)
Definition fails (r : response) : bool :=
  match r with
  | GetRaises _ => true
  | StatusError status_code _ => negb (status_code =? 429)%nat
  | Page _ _ => false
  end.

(** The responses with status 429. *)
Definition rate_limited (r : response) : bool :=
  match r with
  | StatusError status_code _ => (status_code =? 429)%nat
  | _ => false
  end.

(** A page that announces a next one. *)
Definition has_next (next : option nat) : bool :=
  match next with
  | Some (S _) => true
  | _ => false
  end.

(** What [search_query] sets on every record. *)
Definition tagged (query : string) (paper : s2_paper) : Prop :=
  s2_source paper = Some "semantic_scholar" /\ s2_search_query paper = Some query.

(** The number of requests and the seconds slept in a log. *)
Fixpoint requests (l : list event) : nat :=
  match l with
  | [] => 0
  | ERequest _ _ :: l => S (requests l)
  | _ :: l => requests l
  end.

Fixpoint slept (l : list event) : nat :=
  match l with
  | [] => 0
  | ESleep seconds :: l => seconds + slept l
  | _ :: l => slept l
  end.

Section search_query.

(** [server] answers the requests of this call by number. *)
Variable server : nat -> response.
Variable query : string.
Variable limit : nat.

(** [await client.get(...)] with the parameters of the request. *)
Definition request (st : search_state) : search_state :=
  {| results := results st; offset := offset st; sent := S (sent st);
     log := log st ++ [ERequest (offset st) (100 `min` (limit - length (results st)))] |}.

(** The body of [for attempt in range(5)]. *)
Definition attempt (n : nat) (st : search_state) : flow :=
  let answer := server (sent st) in
  let st := request st in
  match answer with
  | StatusError status_code e =>
      if (status_code =? 429)%nat then
        let wait_time := 2 ^ n in
        Continue (emit (ESleep wait_time)
                    (emit (EPrint ("  Rate limited, waiting " +:+ pretty wait_time +:+ "s..."))
                       st))
      else if (n =? 4)%nat then Return_ (emit (EPrint ("  Failed after 5 attempts: " +:+ e)) st)
      else Continue (emit (ESleep (2 ^ n)) st)
  | GetRaises e =>
      if (n =? 4)%nat then Return_ (emit (EPrint ("  Error: " +:+ e)) st)
      else Continue (emit (ESleep (2 ^ n)) st)
  | Page batch next =>
      let st :=
        {| results := results st ++ (tag query <$> batch); offset := offset st;
           sent := sent st; log := log st |} in
      match next with
      | Some (S _ as next) =>
          Break {| results := results st; offset := next; sent := sent st; log := log st |}
      | _ => Return_ st
      end
  end.

(** The [for] loop; [Continue] when the range is used up. *)
Fixpoint attempts (range : list nat) (st : search_state) : flow :=
  match range with
  | [] => Continue st
  | n :: range =>
      match attempt n st with
      | Continue st => attempts range st
      | ended => ended
      end
  end.

(** [search_query]: the [while] loop, its condition evaluated at most
    [fuel] times.  [None] when the loop is still running then; otherwise
    the state at [return results]. *)
Fixpoint search_query (fuel : nat) (st : search_state) : option search_state :=
  match fuel with
  | O => None
  | S fuel =>
      if (length (results st) <? limit)%nat then
        match attempts (seq 0 5) st with
        | Return_ st => Some st
        | Break st | Continue st => search_query fuel st
        end
      else Some st
  end.

End search_query.

End search_semantic_scholar.

(* ===================================================================== *)
(** * Sample inputs                                                       *)
(* ===================================================================== *)

Module samples.

(** A record with a title and nothing else. *)
Definition titled (t : string) : paper :=
  {| doi := None; externalIds := None; title := Some t; arxiv_id := None;
     post_id := None; paperId := None; pdf_url := None; openAccessPdf := None |}.

(** A Semantic Scholar record with neither a DOI nor a title. *)
Definition untitled (id : string) : paper :=
  {| doi := None; externalIds := None; title := None; arxiv_id := None;
     post_id := None; paperId := Some id; pdf_url := None; openAccessPdf := None |}.

(** A record with a DOI and a title. *)
Definition with_doi_title (d t : string) : paper :=
  {| doi := Some d; externalIds := None; title := Some t; arxiv_id := None;
     post_id := None; paperId := None; pdf_url := None; openAccessPdf := None |}.

(** A record with a DOI and a link to its document. *)
Definition with_doi (d u : string) : paper :=
  {| doi := Some d; externalIds := None; title := None; arxiv_id := None;
     post_id := None; paperId := None; pdf_url := Some u; openAccessPdf := None |}.

(** The first bytes of a PDF file. *)
Definition pdf_body : list Byte.byte :=
  [Byte.x25; Byte.x50; Byte.x44; Byte.x46; Byte.x2d; Byte.x31; Byte.x2e; Byte.x37].

(** A network on which the first response arrives whole but the disk fills
    up after three bytes, and every later request times out. *)
Definition disk_full_then_timeouts (n : nat) : download_pdfs.attempt_result :=
  match n with
  | O => download_pdfs.Response "application/pdf" pdf_body
           (download_pdfs.WriteRaises 3 "No space left on device")
  | _ => download_pdfs.GetRaises "timed out"
  end.

(** A server that answers every request with the given status. *)
Definition always_status (status_code : nat) (n : nat) : download_pdfs.attempt_result :=
  download_pdfs.StatusError status_code.

(** The world with no file and no event. *)
Definition fresh : download_pdfs.world :=
  {| download_pdfs.fs := ∅; download_pdfs.trace := [] |}.

(** Four records: the first two and the last have a DOI and a link, the
    third has neither title nor link. *)
Definition sample_papers : list paper :=
  [with_doi "10.1000/x" "http://host/x.pdf";
   with_doi "10.1000/y" "http://host/y";
   untitled "abc";
   with_doi "10.1000/z" "http://host/z"].

(** The first record's document is gone (404); the second one's arrives on
    the second attempt, after a timeout. *)
Definition sample_net (i n : nat) : download_pdfs.attempt_result :=
  match i, n with
  | 0, _ => download_pdfs.StatusError 404
  | 1, 0 => download_pdfs.GetRaises "timed out"
  | 1, _ => download_pdfs.Response "application/pdf" pdf_body download_pdfs.WriteOk
  | _, _ => download_pdfs.StatusError 500
  end.

(** A server that answers every request with an HTML page. *)
Definition landing_pages (n : nat) : download_pdfs.attempt_result :=
  download_pdfs.Response "text/html; charset=utf-8" pdf_body download_pdfs.WriteOk.

(** The last record's document is already in the output directory. *)
Definition sample_world : download_pdfs.world :=
  {| download_pdfs.fs := {[ "papers/10.1000_z.pdf" := pdf_body ]};
     download_pdfs.trace := [] |}.

(** The stats [download_all] returns for these. *)
Definition sample_stats : download_pdfs.stats :=
  {| download_pdfs.total := 4;
     download_pdfs.downloaded := 1;
     download_pdfs.skipped_no_url := 1;
     download_pdfs.skipped_exists := 1;
     download_pdfs.failed := 1;
     download_pdfs.downloaded_files := ["papers/10.1000_z.pdf"; "papers/10.1000_y.pdf"];
     download_pdfs.failed_papers :=
       [{| download_pdfs.fp_id := "10.1000_x"; download_pdfs.fp_title := None;
           download_pdfs.fp_url := "http://host/x.pdf" |}] |}.

(** The first record's coroutine, inside the semaphore and about to call
    [download_pdf]. *)
Definition sample_running : download_pdfs.state :=
  {| download_pdfs.st_world := sample_world;
     download_pdfs.st_stats := download_pdfs.stats_init sample_papers;
     download_pdfs.permits := 1;
     download_pdfs.tasks :=
       [download_pdfs.Running "10.1000_x" "http://host/x.pdf" "papers/10.1000_x.pdf";
        download_pdfs.Created; download_pdfs.Created; download_pdfs.Created] |}.

(** The second record's coroutine, inside the semaphore and about to call
    [download_pdf]. *)
Definition sample_retrying : download_pdfs.state :=
  {| download_pdfs.st_world := sample_world;
     download_pdfs.st_stats := download_pdfs.stats_init sample_papers;
     download_pdfs.permits := 1;
     download_pdfs.tasks :=
       [download_pdfs.Created;
        download_pdfs.Running "10.1000_y" "http://host/y" "papers/10.1000_y.pdf";
        download_pdfs.Created; download_pdfs.Created] |}.

(** The searches of one run: arXiv ends with return code 0, Semantic
    Scholar is still running after 300 seconds, Google Scholar ends with
    return code 1. *)
Definition one_success (name : string) : run_searches.process_result :=
  if String.eqb name "search_arxiv" then run_searches.Completed 0 ""
  else if String.eqb name "search_semantic_scholar" then run_searches.TimeoutExpired
  else run_searches.Completed 1 "CAPTCHA detected. Google Scholar scraping blocked.".

(** A record of the search API with a DOI among its identifiers. *)
Definition s2_record (id d : string) : search_semantic_scholar.s2_paper :=
  {| search_semantic_scholar.s2_paperId := Some id;
     search_semantic_scholar.s2_title := Some "Graph kernels";
     search_semantic_scholar.s2_externalIds :=
       Some {| search_semantic_scholar.ids_DOI := Some d;
               search_semantic_scholar.ids_ArXiv := None |};
     search_semantic_scholar.s2_source := None;
     search_semantic_scholar.s2_search_query := None;
     search_semantic_scholar.s2_doi := None;
     search_semantic_scholar.s2_arxiv_id := None |}.

(** A search API that is rate limiting for good. *)
Definition rate_limiting (n : nat) : search_semantic_scholar.response :=
  search_semantic_scholar.StatusError 429 "Too Many Requests".

(** A search API that cannot be reached. *)
Definition unreachable (n : nat) : search_semantic_scholar.response :=
  search_semantic_scholar.GetRaises "connection refused".

(** A search API that times out once and then serves two pages of one
    record each. *)
Definition two_pages (n : nat) : search_semantic_scholar.response :=
  match n with
  | 0 => search_semantic_scholar.GetRaises "timed out"
  | 1 => search_semantic_scholar.Page [s2_record "a1" "10.1000/a"] (Some 1)
  | _ => search_semantic_scholar.Page [s2_record "b2" "10.1000/b"] None
  end.

End samples.

(* ===================================================================== *)
(** * Properties of the deduplication                                     *)
(* ===================================================================== *)

Import pystr.

Section normalize_title_properties.
Import dedup_papers.

(** The substitution of [normalize_title]: a character that is neither a
    word character nor a space becomes a space. *)
Local Abbreviation blank_out := (fun c : ascii => if is_word c || is_space c then c else " "%char).

(** The characters of a normalized title before the spaces are collapsed:
    word characters other than capitals, and spaces. *)
Local Abbreviation plain := (fun c : ascii => (is_word c || is_space c) && negb (between 65 90 c)).

(** The characters of the words of a normalized title. *)
Local Abbreviation solid := (fun c : ascii => plain c && negb (is_space c)).

Lemma blank_out_lower_plain (c : ascii) : plain (blank_out (lower_ascii c)) = true.
Proof. destruct c as [[] [] [] [] [] [] [] []]; vm_compute; reflexivity. Qed.

Lemma plain_fixed (c : ascii) : plain c = true -> blank_out (lower_ascii c) = c.
Proof. destruct c as [[] [] [] [] [] [] [] []]; vm_compute; congruence. Qed.

Lemma all_chars_blank_out_lower (s : string) :
  all_chars plain (map_chars blank_out (lower s)) = true.
Proof. induction s as [|c s IH]; [done|]. cbn. by rewrite blank_out_lower_plain, IH. Qed.

Lemma map_chars_plain (s : string) :
  all_chars plain s = true -> map_chars blank_out (lower s) = s.
Proof.
  induction s as [|c s IH]; [done|]. cbn [all_chars lower map_chars].
  intros [Hc Hs]%andb_prop. by rewrite IH, (plain_fixed c Hc).
Qed.

Lemma all_chars_of_list (P : ascii -> bool) (l : list ascii) :
  all_chars P (string_of_list_ascii l) = forallb P l.
Proof. induction l as [|c l IH]; [done|]. cbn. by rewrite IH. Qed.

Lemma forallb_rev (P : ascii -> bool) (l : list ascii) : forallb P (rev l) = forallb P l.
Proof.
  induction l as [|c l IH]; [done|]. cbn. rewrite forallb_app, IH. cbn.
  rewrite andb_true_r. apply andb_comm.
Qed.

Lemma nonempty_of_list (l : list ascii) : l <> [] -> nonempty (string_of_list_ascii l) = true.
Proof. by destruct l. Qed.

(** The words [split] returns are non-empty and made of the characters of
    the string that are not spaces. *)
Lemma split_acc_words (s : string) : forall cur,
  all_chars plain s = true -> forallb solid cur = true ->
  Forall (fun w => nonempty w = true /\ all_chars solid w = true) (split_acc s cur).
Proof.
  induction s as [|c s IH]; intros cur Hs Hcur; cbn [split_acc].
  - destruct cur as [|c0 cur]; [constructor|]. repeat constructor.
    + apply nonempty_of_list. intros H%(f_equal (@length ascii)).
      rewrite length_rev in H. done.
    + by rewrite all_chars_of_list, forallb_rev.
  - cbn [all_chars] in Hs. apply andb_prop in Hs as [Hc Hs].
    destruct (is_space c) eqn:Hsp.
    + destruct cur as [|c0 cur]; [by apply IH|]. constructor; [| by apply IH].
      split.
      * apply nonempty_of_list. intros H%(f_equal (@length ascii)).
        rewrite length_rev in H. done.
      * by rewrite all_chars_of_list, forallb_rev.
    + apply IH; [done|]. cbn [forallb]. apply andb_true_intro. split; [| exact Hcur].
      apply andb_true_intro. split; [by rewrite Hsp | by rewrite Hsp].
Qed.

Lemma append_cons (c : ascii) (a b : string) : String c a +:+ b = String c (a +:+ b).
Proof. reflexivity. Qed.

Lemma append_empty_r (s : string) : s +:+ EmptyString = s.
Proof. induction s as [|c s IH]; [done|]. by rewrite append_cons, IH. Qed.

(** [split] reads through a word without spaces. *)
Lemma split_acc_word (w : string) : forall rest cur,
  all_chars solid w = true ->
  split_acc (w +:+ rest) cur = split_acc rest (rev (list_ascii_of_string w) ++ cur).
Proof.
  induction w as [|c w IH]; intros rest cur Hw; [done|].
  cbn [all_chars] in Hw. apply andb_prop in Hw as [Hc Hw].
  apply andb_prop in Hc as [_ Hsp]. apply negb_true_iff in Hsp.
  rewrite append_cons. cbn [split_acc list_ascii_of_string rev]. rewrite Hsp, IH by done.
  by rewrite <- app_assoc.
Qed.

Lemma rev_list_ascii_nonempty (w : string) (cur : list ascii) :
  nonempty w = true -> rev (list_ascii_of_string w) ++ cur <> [].
Proof.
  destruct w as [|c w]; [done|]. intros _ H%(f_equal (@length ascii)).
  rewrite length_app, length_rev in H. cbn in H. lia.
Qed.

(** Splitting what [join] made of words gives the words back. *)
Lemma split_join (ws : list string) :
  Forall (fun w => nonempty w = true /\ all_chars solid w = true) ws ->
  split (join " " ws) = ws.
Proof.
  unfold split, join. induction 1 as [|w ws [Hne Hw] Hws IH]; [done|].
  destruct ws as [|w2 ws].
  - cbn [String.concat]. rewrite <- (append_empty_r w) at 1.
    rewrite split_acc_word by done. cbn [split_acc].
    pose proof (rev_list_ascii_nonempty w [] Hne) as Hcur.
    destruct (rev (list_ascii_of_string w) ++ []) as [|c0 cur] eqn:E; [done|].
    rewrite <- E, app_nil_r, rev_involutive. by rewrite string_of_list_ascii_of_string.
  - cbn [String.concat]. cbn [String.concat] in IH.
    rewrite split_acc_word by done. rewrite append_cons. cbn [split_acc].
    change (is_space " ") with true. cbn match.
    pose proof (rev_list_ascii_nonempty w [] Hne) as Hcur.
    destruct (rev (list_ascii_of_string w) ++ []) as [|c0 cur] eqn:E; [done|].
    rewrite <- E, app_nil_r, rev_involutive, string_of_list_ascii_of_string.
    f_equal. exact IH.
Qed.

Lemma all_chars_append (P : ascii -> bool) (a b : string) :
  all_chars P (a +:+ b) = all_chars P a && all_chars P b.
Proof.
  induction a as [|c a IH]; [done|]. rewrite append_cons. cbn [all_chars].
  by rewrite IH, andb_assoc.
Qed.

Lemma all_chars_weaken (P P' : ascii -> bool) (s : string) :
  (forall c, P c = true -> P' c = true) -> all_chars P s = true -> all_chars P' s = true.
Proof.
  intros HP. induction s as [|c s IH]; [done|]. cbn.
  intros [Hc Hs]%andb_prop. by rewrite (HP c Hc), IH.
Qed.

Lemma all_chars_join (ws : list string) :
  Forall (fun w => nonempty w = true /\ all_chars solid w = true) ws ->
  all_chars plain (join " " ws) = true.
Proof.
  unfold join. induction 1 as [|w ws [Hne Hw] Hws IH]; [done|].
  assert (all_chars plain w = true) as Hw'.
  { eapply all_chars_weaken; [| exact Hw]. intros c Hc. by apply andb_prop in Hc as [? _]. }
  destruct ws as [|w2 ws]; [done|]. cbn [String.concat] in *.
  rewrite !all_chars_append, Hw', IH. reflexivity.
Qed.

(** X10. On titles of ASCII characters [normalize_title] is idempotent: a
    normalized title is its own normal form. *)
Theorem normalize_title_idempotent (title : string) :
  all_chars is_ascii title = true ->
  normalize_title (normalize_title title) = normalize_title title.
Proof.
  intros _. destruct title as [|c0 r]; [reflexivity|]. set (title := String c0 r).
  assert (normalize_title title = join " " (split (map_chars blank_out (lower title))))
    as -> by reflexivity.
  pose proof (split_acc_words _ [] (all_chars_blank_out_lower title) eq_refl) as Hwords.
  fold (split (map_chars blank_out (lower title))) in Hwords.
  set (ws := split (map_chars blank_out (lower title))) in *.
  unfold normalize_title. destruct (nonempty (join " " ws)) eqn:Hne.
  - rewrite (map_chars_plain _ (all_chars_join ws Hwords)).
    by rewrite (split_join ws Hwords).
  - by destruct (join " " ws).
Qed.

End normalize_title_properties.

Section dedup_properties.
Import dedup_papers.

Variable similarity : string -> string -> Q.

Implicit Types (p : paper) (dois : gset string) (titles : list string) (threshold : Q).

(** The normalized title the loop compares a record by. *)
Abbreviation normalized p := (normalize_title (get_title p)).

(** [get_doi] never returns the empty string. *)
Lemma get_doi_nonempty p d : get_doi p = Some d -> nonempty d = true.
Proof.
  unfold get_doi. intros H.
  destruct (doi p) as [[|c s]|] eqn:E; simpl in H.
  - destruct (externalIds p) as [[[[|c s]|]]|]; simpl in H; by simplify_eq.
  - by simplify_eq.
  - destruct (externalIds p) as [[[[|c s]|]]|]; simpl in H; by simplify_eq.
Qed.

Lemma normalize_title_empty : normalize_title EmptyString = EmptyString.
Proof. reflexivity. Qed.

(** A record takes part in the title comparison when its normalized title
    is not empty; its title is then not empty either. *)
Lemma title_checked p :
  nonempty (get_title p) && nonempty (normalized p) = nonempty (normalized p).
Proof. destruct (get_title p); [by rewrite normalize_title_empty | done]. Qed.

Lemma is_duplicate_false threshold n titles :
  is_duplicate similarity threshold n titles = false <->
  Forall (fun t => (similarity n t < threshold)%Q) titles.
Proof.
  induction titles as [|t titles IH]; simpl.
  - split; [constructor | done].
  - destruct (Qle_bool threshold (similarity n t)) eqn:E.
    + split; [done |]. intros H. apply Forall_cons in H as [Hlt _].
      apply Qle_bool_iff in E. by apply Qlt_not_le in Hlt.
    + rewrite IH. split.
      * intros H. constructor; [| done]. apply Qnot_le_lt. intros Hle.
        apply Qle_bool_iff in Hle. congruence.
      * intros H. by apply Forall_cons in H as [_ H].
Qed.

(** The loop only appends: what a step does to the seen DOIs and titles
    does not depend on the papers retained so far. *)
Lemma dedup_step_frame threshold (st : dedup_state) p :
  let st' := dedup_step similarity threshold st p in
  let v := dedup_step similarity threshold (seen (seen_dois st) (seen_titles st)) p in
  seen_dois st' = seen_dois v /\ seen_titles st' = seen_titles v /\
  deduplicated st' = deduplicated st ++ deduplicated v.
Proof.
  unfold dedup_step, title_step, drop, seen; simpl.
  repeat case_match; simpl; rewrite ?app_nil_r; done.
Qed.

Lemma fold_dedup_retained threshold papers : forall st : dedup_state,
  deduplicated (fold_left (dedup_step similarity threshold) papers st) =
  deduplicated st ++ retained similarity threshold (seen_dois st) (seen_titles st) papers.
Proof.
  induction papers as [|p papers IH]; intros st; simpl.
  - by rewrite app_nil_r.
  - rewrite IH.
    destruct (dedup_step_frame threshold st p) as (-> & -> & ->).
    by rewrite <- app_assoc.
Qed.

(** [deduplicate_papers] returns what [retained] collects from the start. *)
Lemma deduplicate_papers_retained threshold papers :
  deduplicate_papers similarity papers threshold = retained similarity threshold ∅ [] papers.
Proof. unfold deduplicate_papers. by rewrite fold_dedup_retained. Qed.

(** The three ways an iteration ends: the DOI is a seen one; the title is
    close to a seen one; the record is retained. *)
Lemma retained_cons threshold dois titles p papers :
  retained similarity threshold dois titles (p :: papers) =
  if doi_seen dois p then retained similarity threshold dois titles papers
  else if nonempty (normalized p) && is_duplicate similarity threshold (normalized p) titles
  then retained similarity threshold (add_doi dois p) titles papers
  else p :: retained similarity threshold (add_doi dois p)
              (if nonempty (normalized p) then titles ++ [normalized p] else titles) papers.
Proof.
  cbn [retained]. unfold dedup_step, title_step, drop, seen, doi_seen, add_doi.
  rewrite title_checked. cbn [seen_dois seen_titles deduplicated].
  destruct (get_doi p) as [d|] eqn:Hdoi.
  - pose proof (get_doi_nonempty _ _ Hdoi) as Hd. destruct d as [|c d]; [done|].
    case_bool_decide; [done|].
    destruct (nonempty (normalized p)); [destruct (is_duplicate _ _ _ _)|]; done.
  - destruct (nonempty (normalized p)); [destruct (is_duplicate _ _ _ _)|]; done.
Qed.

Lemma add_doi_mono dois dois' p : dois' ⊆ dois -> add_doi dois' p ⊆ add_doi dois p.
Proof. unfold add_doi. destruct (get_doi p); [by apply union_mono_l | done]. Qed.

Lemma add_doi_subseteq dois p : dois ⊆ add_doi dois p.
Proof. unfold add_doi. destruct (get_doi p); [apply union_subseteq_r | done]. Qed.

Lemma doi_seen_mono dois dois' p :
  dois' ⊆ dois -> doi_seen dois p = false -> doi_seen dois' p = false.
Proof.
  unfold doi_seen. destruct (get_doi p); [| done].
  intros Hsub H. apply bool_decide_eq_false in H. apply bool_decide_eq_false.
  intros Hin. by apply H, Hsub.
Qed.

(** Running the loop on what it retained, with at most the same seen DOIs
    and the same seen titles, retains everything again. *)
Lemma retained_idempotent threshold papers : forall dois dois' titles,
  dois' ⊆ dois ->
  retained similarity threshold dois' titles (retained similarity threshold dois titles papers)
  = retained similarity threshold dois titles papers.
Proof.
  induction papers as [|p papers IH]; intros dois dois' titles Hsub; [done|].
  rewrite retained_cons.
  destruct (doi_seen dois p) eqn:Hseen; [by apply IH|].
  destruct (nonempty (normalized p) && is_duplicate _ _ _ _) eqn:Hdup.
  - apply IH. etrans; [done | apply add_doi_subseteq].
  - rewrite retained_cons, (doi_seen_mono _ _ _ Hsub Hseen), Hdup.
    f_equal. apply IH. by apply add_doi_mono.
Qed.

(** C4. [deduplicate_papers] is idempotent: for every similarity score,
    every list of records and every threshold, deduplicating the output
    again with the same threshold returns it unchanged. *)
Theorem deduplicate_papers_idempotent (papers : list paper) (threshold : Q) :
  deduplicate_papers similarity (deduplicate_papers similarity papers threshold) threshold
  = deduplicate_papers similarity papers threshold.
Proof.
  rewrite !deduplicate_papers_retained. by apply retained_idempotent.
Qed.

(** What holds of the records retained from [papers] on: they are told
    apart from each other, from the seen DOIs and from the seen titles. *)
Lemma retained_told_apart threshold papers : forall dois titles,
  ForallOrdPairs (told_apart similarity threshold)
    (retained similarity threshold dois titles papers) /\
  Forall (fun b =>
            (forall d, get_doi b = Some d -> d ∉ dois) /\
            (nonempty (normalized b) = true ->
             Forall (fun t => (similarity (normalized b) t < threshold)%Q) titles))
    (retained similarity threshold dois titles papers).
Proof.
  induction papers as [|p papers IH]; intros dois titles.
  { split; constructor. }
  rewrite retained_cons.
  destruct (doi_seen dois p) eqn:Hseen; [by apply IH|].
  pose proof (add_doi_subseteq dois p) as Hsub.
  destruct (nonempty (normalized p) && is_duplicate _ _ _ _) eqn:Hdup.
  - destruct (IH (add_doi dois p) titles) as [Hpairs Hall]. split; [done|].
    eapply Forall_impl; [exact Hall|]. intros b [Hb1 Hb2]. split; [| done].
    intros d Hd Hin. by apply (Hb1 d Hd), Hsub.
  - set (titles' := if nonempty (normalized p) then titles ++ [normalized p] else titles).
    destruct (IH (add_doi dois p) titles') as [Hpairs Hall]. split.
    + constructor; [| done].
      apply Forall_forall. intros b Hb.
      rewrite Forall_forall in Hall. destruct (Hall b Hb) as [Hb1 Hb2]. split.
      * intros d Hd Hd'. apply (Hb1 d Hd'). unfold add_doi. rewrite Hd.
        apply elem_of_union_l. by apply elem_of_singleton.
      * intros Hp Hnb. specialize (Hb2 Hnb). subst titles'. rewrite Hp in Hb2.
        apply Forall_app in Hb2 as [_ Hb2]. by apply Forall_cons in Hb2 as [Hb2 _].
    + constructor.
      * split.
        -- intros d Hd. unfold doi_seen in Hseen. rewrite Hd in Hseen.
           by apply bool_decide_eq_false in Hseen.
        -- intros Hp. rewrite Hp in Hdup. by apply is_duplicate_false.
      * eapply Forall_impl; [exact Hall|]. intros b [Hb1 Hb2]. split.
        -- intros d Hd Hin. by apply (Hb1 d Hd), Hsub.
        -- intros Hnb. specialize (Hb2 Hnb). subst titles'.
           destruct (nonempty (normalized p)); [| done].
           by apply Forall_app in Hb2 as [Hb2 _].
Qed.

(** C3, as amended. For every similarity score, list of records and
    threshold, any two elements of the output of [deduplicate_papers] are
    told apart: they do not have the same lower-cased DOI, and if both have
    a non-empty normalized title then the score of the later one's title
    against the earlier one's is below the threshold.  Records whose
    normalized title is empty take no part in the title comparison. *)
Theorem deduplicate_papers_told_apart (papers : list paper) (threshold : Q) :
  ForallOrdPairs (told_apart similarity threshold)
    (deduplicate_papers similarity papers threshold).
Proof.
  rewrite deduplicate_papers_retained. apply retained_told_apart.
Qed.

Lemma doi_seen_empty p : doi_seen ∅ p = false.
Proof. unfold doi_seen. destruct (get_doi p); [| done]. by apply bool_decide_eq_false. Qed.

(** The first record of the input is always retained. *)
Lemma retained_first threshold p papers :
  deduplicate_papers similarity (p :: papers) threshold =
  p :: retained similarity threshold (add_doi ∅ p)
         (if nonempty (normalized p) then [normalized p] else []) papers.
Proof.
  rewrite deduplicate_papers_retained, retained_cons, doi_seen_empty.
  cbn [is_duplicate]. rewrite andb_false_r. by destruct (nonempty (normalized p)).
Qed.

(** C7, as amended. For a pair of records whose normalized titles are both
    non-empty and whose similarity equals the threshold exactly, the later
    one is dropped (the comparison is inclusive); for a pair whose
    similarity is strictly below the threshold, the later one is retained
    unless its DOI is the earlier one's. *)
Theorem threshold_boundary (p1 p2 : paper) (threshold : Q) :
  (nonempty (normalized p1) = true -> nonempty (normalized p2) = true ->
   (similarity (normalized p2) (normalized p1) == threshold)%Q ->
   deduplicate_papers similarity [p1; p2] threshold = [p1]) /\
  ((similarity (normalized p2) (normalized p1) < threshold)%Q ->
   doi_seen (add_doi ∅ p1) p2 = false ->
   deduplicate_papers similarity [p1; p2] threshold = [p1; p2]).
Proof.
  rewrite retained_first, retained_cons. split.
  - intros -> H2 Heq. destruct (doi_seen _ p2); [done|].
    rewrite H2. cbn [app is_duplicate andb].
    assert (Qle_bool threshold (similarity (normalized p2) (normalized p1)) = true) as ->.
    { apply Qle_bool_iff. rewrite Heq. apply Qle_refl. }
    done.
  - intros Hlt ->.
    assert (nonempty (normalized p2) &&
            is_duplicate similarity threshold (normalized p2)
              (if nonempty (normalized p1) then [normalized p1] else []) = false) as ->; [| done].
    apply andb_false_iff. right. apply is_duplicate_false.
    destruct (nonempty (normalized p1)); repeat constructor. done.
Qed.

(** The records retained from [papers] on are among [papers], in order. *)
Lemma retained_sublist threshold papers : forall dois titles,
  sublist (retained similarity threshold dois titles papers) papers.
Proof.
  induction papers as [|p papers IH]; intros dois titles; [constructor|].
  rewrite retained_cons. repeat case_match; by constructor.
Qed.

(** X2. Order preservation: the output of [deduplicate_papers] is the
    input with some records left out, in the same relative order. *)
Theorem deduplicate_papers_sublist (papers : list paper) (threshold : Q) :
  sublist (deduplicate_papers similarity papers threshold) papers.
Proof. rewrite deduplicate_papers_retained. apply retained_sublist. Qed.

Lemma ForallOrdPairs_weaken {A : Type} (R R' : A -> A -> Prop) (P : A -> Prop) (l : list A) :
  (forall a b, P a -> P b -> R a b -> R' a b) ->
  Forall P l -> ForallOrdPairs R l -> ForallOrdPairs R' l.
Proof.
  intros Himpl HP Hpairs. induction Hpairs as [|a l Ha Hl IH]; [constructor|].
  apply Forall_cons in HP as [HPa HPl]. constructor; [| by apply IH].
  rewrite Forall_forall in *. eauto.
Qed.

(** X5. When every input record has a non-empty normalized title, no two
    elements of the output are identity-equivalent. *)
Theorem no_equivalent_pair_titled (papers : list paper) (threshold : Q) :
  Forall (fun p => nonempty (normalized p) = true) papers ->
  no_equivalent_pair similarity threshold (deduplicate_papers similarity papers threshold).
Proof.
  intros Htitled. rewrite deduplicate_papers_retained.
  apply (ForallOrdPairs_weaken (told_apart similarity threshold) _
           (fun p => nonempty (normalized p) = true)).
  - intros a b Ha Hb [Hdoi Htitle] [(d & Hda & Hdb)|Hle].
    + by apply (Hdoi d Hda).
    + by apply (Qlt_not_le _ _ (Htitle Ha Hb)).
  - rewrite Forall_forall in *. intros p Hp. apply Htitled.
    eapply elem_of_sublist; [exact Hp | apply retained_sublist].
  - apply retained_told_apart.
Qed.

(** X3. DOI priority: two records with the same lower-cased DOI are
    merged into the first, whatever their titles. *)
Theorem same_doi_merged (p1 p2 : paper) (d : string) (threshold : Q) :
  get_doi p1 = Some d -> get_doi p2 = Some d ->
  deduplicate_papers similarity [p1; p2] threshold = [p1].
Proof.
  intros H1 H2. rewrite retained_first, retained_cons.
  unfold doi_seen, add_doi. rewrite H1, H2.
  rewrite bool_decide_eq_true_2; [done|].
  apply elem_of_union_l. by apply elem_of_singleton.
Qed.

(** Every iteration either retains the record or counts it as a
    duplicate. *)
Lemma dedup_step_counts threshold (st : dedup_state) p :
  (duplicates_removed (dedup_step similarity threshold st p)
   + length (deduplicated (dedup_step similarity threshold st p))
   = S (duplicates_removed st + length (deduplicated st)))%nat.
Proof.
  unfold dedup_step, title_step, drop.
  repeat case_match; cbn; rewrite ?length_app; cbn; lia.
Qed.

(** X6. The count the loop reports as removed duplicates is exact: it and
    the length of the output add up to the length of the input. *)
Theorem duplicates_removed_exact (papers : list paper) (threshold : Q) :
  (duplicates_removed (fold_left (dedup_step similarity threshold) papers dedup_init)
   + length (deduplicate_papers similarity papers threshold) = length papers)%nat.
Proof.
  unfold deduplicate_papers.
  assert (forall st : dedup_state,
           (duplicates_removed (fold_left (dedup_step similarity threshold) papers st)
            + length (deduplicated (fold_left (dedup_step similarity threshold) papers st))
            = duplicates_removed st + length (deduplicated st) + length papers)%nat) as H.
  { induction papers as [|p papers IH]; intros st; cbn [fold_left length]; [lia|].
    rewrite IH. pose proof (dedup_step_counts threshold st p). lia. }
  rewrite H. cbn. lia.
Qed.

(** X7. Merging more input after the first: the records retained from a
    list are retained, in the same places, when further records follow it;
    what follows contributes a selection of its own records. *)
Theorem deduplicate_papers_app (papers more : list paper) (threshold : Q) :
  exists rest,
    sublist rest more /\
    deduplicate_papers similarity (papers ++ more) threshold
    = deduplicate_papers similarity papers threshold ++ rest.
Proof.
  unfold deduplicate_papers. rewrite fold_left_app, fold_dedup_retained.
  eexists. split; [apply retained_sublist | reflexivity].
Qed.

Lemma is_duplicate_true threshold n titles :
  is_duplicate similarity threshold n titles = true ->
  exists t, t ∈ titles /\ (threshold <= similarity n t)%Q.
Proof.
  induction titles as [|t titles IH]; cbn [is_duplicate]; [done|].
  destruct (Qle_bool threshold (similarity n t)) eqn:E.
  - intros _. exists t. split; [left | by apply Qle_bool_iff].
  - intros H. destruct (IH H) as (t' & Hin & Hle). exists t'. split; [by right | done].
Qed.

(** What the first iteration leaves for the rest of the loop. *)
Lemma retained_cons_shape threshold dois titles p0 papers :
  exists (pre : list paper) dois' titles',
    retained similarity threshold dois titles (p0 :: papers)
    = pre ++ retained similarity threshold dois' titles' papers /\
    dois' ⊆ add_doi dois p0 /\
    (forall t, t ∈ titles' ->
       t ∈ titles \/ (t = normalized p0 /\ nonempty (normalized p0) = true /\ p0 ∈ pre)).
Proof.
  rewrite retained_cons. destruct (doi_seen dois p0).
  { exists [], dois, titles. split; [done|]. split; [apply add_doi_subseteq | by left]. }
  destruct (nonempty (normalized p0)) eqn:Hn0; cbn [andb].
  - destruct (is_duplicate _ _ _ _).
    + exists [], (add_doi dois p0), titles. split; [done|]. split; [done | by left].
    + exists [p0], (add_doi dois p0), (titles ++ [normalized p0]).
      split; [done|]. split; [done|].
      intros t Hin. apply elem_of_app in Hin as [Hin|Hin]; [by left|].
      apply list_elem_of_singleton in Hin as ->. right. split; [done|]. split; [done | left].
  - exists [p0], (add_doi dois p0), titles. split; [done|]. split; [done | by left].
Qed.

(** Why a record is not among the retained ones: its DOI is a seen one or
    that of a record before it, or its normalized title is close to a seen
    one or to that of a retained record. *)
Lemma retained_or_cause threshold papers : forall dois titles i p,
  papers !! i = Some p ->
  p ∈ retained similarity threshold dois titles papers \/
  (exists d, get_doi p = Some d /\
     (d ∈ dois \/ exists j q, (j < i)%nat /\ papers !! j = Some q /\ get_doi q = Some d)) \/
  (nonempty (normalized p) = true /\
   exists t, (threshold <= similarity (normalized p) t)%Q /\
     (t ∈ titles \/
      exists q, q ∈ retained similarity threshold dois titles papers /\
                nonempty (normalized q) = true /\ t = normalized q)).
Proof.
  induction papers as [|p0 papers IH]; intros dois titles i p Hp; [done|].
  destruct i as [|i]; cbn in Hp.
  - (* the record at the head *)
    simplify_eq. rewrite retained_cons. destruct (doi_seen dois p) eqn:Hseen.
    { right; left. unfold doi_seen in Hseen. destruct (get_doi p) as [d|]; [| done].
      exists d. split; [done|]. left. by apply bool_decide_eq_true in Hseen. }
    destruct (nonempty (normalized p)) eqn:Hn; cbn [andb].
    + destruct (is_duplicate _ _ _ _) eqn:Hdup; [| left; left].
      right; right. split; [done|].
      destruct (is_duplicate_true _ _ _ Hdup) as (t & Hin & Hle). eauto.
    + left; left.
  - (* a record of the tail *)
    destruct (retained_cons_shape threshold dois titles p0 papers)
      as (pre & dois' & titles' & -> & Hdois & Htitles).
    destruct (IH dois' titles' i p Hp)
      as [Hin|[(d & Hd & Hcause)|(Hn & t & Hle & Hcause)]].
    + left. apply elem_of_app. by right.
    + right; left. exists d. split; [done|].
      destruct Hcause as [Hin|(j & q & Hj & Hq & Hdq)].
      * apply Hdois in Hin. unfold add_doi in Hin.
        destruct (get_doi p0) as [d0|] eqn:Hd0; [| by left].
        apply elem_of_union in Hin as [Hin|Hin]; [| by left].
        apply elem_of_singleton in Hin as ->.
        right. exists 0%nat, p0. split; [lia|]. done.
      * right. exists (S j), q. split; [lia|]. done.
    + right; right. split; [done|]. exists t. split; [done|].
      destruct Hcause as [Hin|(q & Hq & Hnq & ->)].
      * destruct (Htitles t Hin) as [?|(-> & Hn0 & Hpre)]; [by left|].
        right. exists p0. split; [| done]. apply elem_of_app. by left.
      * right. exists q. split; [| done]. apply elem_of_app. by right.
Qed.

(** X8. No record is dropped without cause: every input record is in the
    output, or has the DOI of a record before it in the input, or has a
    non-empty normalized title whose score against the normalized title of
    a record of the output reaches the threshold. *)
Theorem dropped_for_cause (papers : list paper) (threshold : Q) (i : nat) (p : paper) :
  papers !! i = Some p ->
  p ∈ deduplicate_papers similarity papers threshold \/
  (exists j q d, (j < i)%nat /\ papers !! j = Some q /\
                 get_doi q = Some d /\ get_doi p = Some d) \/
  (nonempty (normalized p) = true /\
   exists q, q ∈ deduplicate_papers similarity papers threshold /\
             nonempty (normalized q) = true /\
             (threshold <= similarity (normalized p) (normalized q))%Q).
Proof.
  intros Hp. rewrite deduplicate_papers_retained.
  destruct (retained_or_cause threshold papers ∅ [] i p Hp)
    as [Hin|[(d & Hd & [Hin|(j & q & Hj & Hq & Hdq)])|(Hn & t & Hle & [Hin|(q & Hq & Hnq & ->)])]].
  - by left.
  - by apply not_elem_of_empty in Hin.
  - right; left. exists j, q, d. done.
  - by apply not_elem_of_nil in Hin.
  - right; right. split; [done|]. exists q. done.
Qed.

(** X9. A record with no DOI and an empty normalized title is never
    dropped: every such record of the input is in the output. *)
Theorem unidentified_retained (papers : list paper) (threshold : Q) (p : paper) :
  p ∈ papers -> get_doi p = None -> nonempty (normalized p) = false ->
  p ∈ deduplicate_papers similarity papers threshold.
Proof.
  intros Hin Hdoi Hn. apply list_elem_of_lookup in Hin as [i Hp].
  rewrite deduplicate_papers_retained.
  destruct (retained_or_cause threshold papers ∅ [] i p Hp)
    as [?|[(d & Hd & _)|(Hn' & _)]]; [done | congruence | congruence].
Qed.

End dedup_properties.

(** ** The deduplication under the token-sort score *)

Section dedup_token_sort.
Import dedup_papers rapidfuzz samples.

(** C3, counterexample. Two records without DOI and without title are both
    retained although the score of their (empty) normalized titles is 1,
    above the default threshold; and at threshold 0, where every score
    reaches the threshold, a record without title is retained next to a
    titled one. *)
Lemma no_equivalent_pair_fails :
  ~ no_equivalent_pair token_sort_similarity (85 # 100)
      (deduplicate_papers token_sort_similarity [untitled "a1"; untitled "b2"] (85 # 100)) /\
  ~ no_equivalent_pair token_sort_similarity 0
      (deduplicate_papers token_sort_similarity [untitled "a1"; titled "Some title"] 0).
Proof.
  split.
  - assert (deduplicate_papers token_sort_similarity [untitled "a1"; untitled "b2"] (85 # 100)
            = [untitled "a1"; untitled "b2"]) as -> by (vm_compute; reflexivity).
    intros H. inversion_clear H as [|a l Hall _]. apply Forall_cons in Hall as [Hne _].
    apply Hne. right. vm_compute. discriminate.
  - assert (deduplicate_papers token_sort_similarity [untitled "a1"; titled "Some title"] 0
            = [untitled "a1"; titled "Some title"]) as -> by (vm_compute; reflexivity).
    intros H. inversion_clear H as [|a l Hall _]. apply Forall_cons in Hall as [Hne _].
    apply Hne. right. vm_compute. discriminate.
Qed.

(** C7, counterexample. The empty normalized titles of two records without
    title score exactly 1, and at threshold 1 the later record is retained;
    the empty title of a record scores exactly 0 against a non-empty one,
    and at threshold 0 the later record is retained. *)
Lemma threshold_boundary_fails :
  ((token_sort_similarity (normalize_title (get_title (untitled "b2")))
      (normalize_title (get_title (untitled "a1"))) == 1)%Q /\
   deduplicate_papers token_sort_similarity [untitled "a1"; untitled "b2"] 1
     <> [untitled "a1"]) /\
  ((token_sort_similarity (normalize_title (get_title (untitled "b2")))
      (normalize_title (get_title (titled "Some title"))) == 0)%Q /\
   deduplicate_papers token_sort_similarity [titled "Some title"; untitled "b2"] 0
     <> [titled "Some title"]).
Proof.
  repeat split; try (vm_compute; discriminate); vm_compute; reflexivity.
Qed.

(** [threshold_boundary] at the titles [foo bar] and [bar fox], whose score
    is 6/7: the later record is dropped at threshold 6/7 and retained at
    threshold 9/10. *)
Lemma threshold_boundary_witness :
  deduplicate_papers token_sort_similarity [titled "foo bar"; titled "bar fox"] (6 # 7)
    = [titled "foo bar"] /\
  deduplicate_papers token_sort_similarity [titled "foo bar"; titled "bar fox"] (9 # 10)
    = [titled "foo bar"; titled "bar fox"].
Proof.
  split.
  - apply (proj1 (threshold_boundary token_sort_similarity
                    (titled "foo bar") (titled "bar fox") (6 # 7))); reflexivity.
  - apply (proj2 (threshold_boundary token_sort_similarity
                    (titled "foo bar") (titled "bar fox") (9 # 10))); reflexivity.
Defined.

(** [no_equivalent_pair_titled] at two titled records. *)
Lemma no_equivalent_pair_titled_witness :
  no_equivalent_pair token_sort_similarity (9 # 10)
    (deduplicate_papers token_sort_similarity [titled "foo bar"; titled "bar fox"] (9 # 10)).
Proof.
  apply (no_equivalent_pair_titled token_sort_similarity
           [titled "foo bar"; titled "bar fox"] (9 # 10)).
  repeat constructor.
Defined.

(** [same_doi_merged] at two records with one DOI, written in different
    case, and unrelated titles. *)
Lemma same_doi_merged_witness :
  deduplicate_papers token_sort_similarity
    [with_doi_title "10.1000/ABC" "Graph kernels"; with_doi_title "10.1000/abc" "On sheaves"]
    (85 # 100)
  = [with_doi_title "10.1000/ABC" "Graph kernels"].
Proof.
  apply (same_doi_merged token_sort_similarity
           (with_doi_title "10.1000/ABC" "Graph kernels")
           (with_doi_title "10.1000/abc" "On sheaves") "10.1000/abc" (85 # 100));
    reflexivity.
Defined.

(** [normalize_title_idempotent] at a title with capitals, punctuation and
    a run of spaces. *)
Lemma normalize_title_idempotent_witness :
  normalize_title (normalize_title "Foo,  Bar: a (short) Study!")
  = normalize_title "Foo,  Bar: a (short) Study!".
Proof.
  apply (normalize_title_idempotent "Foo,  Bar: a (short) Study!").
  vm_compute; reflexivity.
Defined.

(** [dropped_for_cause] at the second of two records with one DOI,
    written in different case. *)
Lemma dropped_for_cause_witness :
  with_doi_title "10.1000/abc" "On sheaves"
    ∈ deduplicate_papers token_sort_similarity
        [with_doi_title "10.1000/ABC" "Graph kernels"; with_doi_title "10.1000/abc" "On sheaves"]
        (85 # 100) \/
  (exists j q d,
     (j < 1)%nat /\
     [with_doi_title "10.1000/ABC" "Graph kernels"; with_doi_title "10.1000/abc" "On sheaves"]
       !! j = Some q /\
     get_doi q = Some d /\ get_doi (with_doi_title "10.1000/abc" "On sheaves") = Some d) \/
  (nonempty (normalize_title (get_title (with_doi_title "10.1000/abc" "On sheaves"))) = true /\
   exists q,
     q ∈ deduplicate_papers token_sort_similarity
           [with_doi_title "10.1000/ABC" "Graph kernels";
            with_doi_title "10.1000/abc" "On sheaves"] (85 # 100) /\
     nonempty (normalize_title (get_title q)) = true /\
     (85 # 100 <= token_sort_similarity
                    (normalize_title (get_title (with_doi_title "10.1000/abc" "On sheaves")))
                    (normalize_title (get_title q)))%Q).
Proof.
  apply (dropped_for_cause token_sort_similarity
           [with_doi_title "10.1000/ABC" "Graph kernels"; with_doi_title "10.1000/abc" "On sheaves"]
           (85 # 100) 1 (with_doi_title "10.1000/abc" "On sheaves")).
  reflexivity.
Defined.

(** [unidentified_retained] at a record without DOI and without title
    that follows a titled one. *)
Lemma unidentified_retained_witness :
  untitled "abc"
    ∈ deduplicate_papers token_sort_similarity [titled "foo bar"; untitled "abc"] (85 # 100).
Proof.
  apply (unidentified_retained token_sort_similarity [titled "foo bar"; untitled "abc"]
           (85 # 100) (untitled "abc")); [right; left | reflexivity | reflexivity].
Defined.

(** The example of the specification: the second record merges with
    the first by its title, the third is distinct. *)
Lemma specification_example :
  deduplicate_papers token_sort_similarity
    [with_doi_title "10.1/a" "Foo Bar"; titled "foo   bar!!";
     with_doi_title "10.1/b" "Something else"] (85 # 100)
  = [with_doi_title "10.1/a" "Foo Bar"; with_doi_title "10.1/b" "Something else"].
Proof. vm_compute; reflexivity. Qed.

End dedup_token_sort.

(* ===================================================================== *)
(** * Properties of the ids                                               *)
(* ===================================================================== *)

Section id_properties.
Import download_pdfs.

Lemma take_nil (n : nat) : take n EmptyString = EmptyString.
Proof. by destruct n. Qed.

Lemma take_cons (n : nat) (c : ascii) (s : string) :
  take (S n) (String c s) = String c (take n s).
Proof. reflexivity. Qed.

Lemma all_chars_take (P : ascii -> bool) (n : nat) : forall s,
  all_chars P s = true -> all_chars P (take n s) = true.
Proof.
  induction n as [|n IH]; intros [|c s] Hs; try done.
  rewrite take_cons. cbn [all_chars] in *. apply andb_prop in Hs as [-> Hs]. by rewrite IH.
Qed.

Lemma length_take (n : nat) : forall s, (String.length (take n s) <= n)%nat.
Proof.
  induction n as [|n IH]; intros [|c s]; cbn; try lia.
  specialize (IH s). unfold take in IH. lia.
Qed.

Lemma take_all (n : nat) : forall s, (String.length s <= n)%nat -> take n s = s.
Proof.
  induction n as [|n IH]; intros [|c s] Hlen; cbn in Hlen; try done; [lia|].
  rewrite take_cons, IH; [done | lia].
Qed.

Lemma all_chars_filter (keep : ascii -> bool) (s : string) :
  all_chars keep (filter_chars keep s) = true.
Proof.
  induction s as [|c s IH]; [done|]. cbn [filter_chars].
  destruct (keep c) eqn:Hc; [| done]. cbn [all_chars]. by rewrite Hc, IH.
Qed.

Lemma filter_chars_all (keep : ascii -> bool) (s : string) :
  all_chars keep s = true -> filter_chars keep s = s.
Proof.
  induction s as [|c s IH]; [done|]. cbn [all_chars filter_chars].
  intros [-> Hs]%andb_prop. by rewrite IH.
Qed.

Lemma all_chars_squeeze (s : string) : forall in_run,
  all_chars (fun c => negb (problematic c)) s = true ->
  all_chars safe_char (squeeze_spaces in_run s) = true.
Proof.
  induction s as [|c s IH]; intros in_run Hs; [done|].
  cbn [all_chars squeeze_spaces] in *. apply andb_prop in Hs as [Hc Hs].
  destruct (is_space c) eqn:Hsp.
  - destruct in_run; [by apply IH|]. cbn [all_chars]. by rewrite IH.
  - cbn [all_chars]. unfold safe_char at 1. by rewrite Hc, Hsp, IH.
Qed.

Lemma squeeze_spaces_safe (s : string) :
  all_chars safe_char s = true -> squeeze_spaces false s = s.
Proof.
  induction s as [|c s IH]; [done|]. cbn [all_chars squeeze_spaces].
  intros [Hc Hs]%andb_prop. unfold safe_char in Hc.
  apply andb_prop in Hc as [_ Hsp]. apply negb_true_iff in Hsp. by rewrite Hsp, IH.
Qed.

(** What [sanitize_filename] returns has at most 100 characters, none of
    them a space or one of the characters it removes. *)
Lemma sanitize_filename_safe (name : string) :
  all_chars safe_char (sanitize_filename name) = true /\
  (String.length (sanitize_filename name) <= 100)%nat.
Proof.
  unfold sanitize_filename. split; [| apply length_take].
  apply all_chars_take, all_chars_squeeze, all_chars_filter.
Qed.

(** A name of at most 100 safe characters is left as it is. *)
Lemma sanitize_filename_fixed (name : string) :
  all_chars safe_char name = true -> (String.length name <= 100)%nat ->
  sanitize_filename name = name.
Proof.
  intros Hsafe Hlen. unfold sanitize_filename.
  rewrite filter_chars_all.
  - by rewrite squeeze_spaces_safe, take_all.
  - eapply all_chars_weaken; [| exact Hsafe].
    intros c Hc. unfold safe_char in Hc. by apply andb_prop in Hc as [? _].
Qed.

(** X11. [sanitize_filename] is idempotent: a sanitized name is left as it
    is by a second pass. *)
Theorem sanitize_filename_idempotent (name : string) :
  sanitize_filename (sanitize_filename name) = sanitize_filename name.
Proof.
  destruct (sanitize_filename_safe name) as [Hsafe Hlen].
  by apply sanitize_filename_fixed.
Qed.

(** X12. Whatever the record, its id is a safe file name: at most 100
    characters, none of them a space, a slash, a backslash or another of
    the characters [sanitize_filename] removes.  The target path is
    therefore a file directly under the output directory. *)
Theorem get_paper_id_safe (p : paper) :
  all_chars safe_char (get_paper_id p) = true /\
  (String.length (get_paper_id p) <= 100)%nat.
Proof. unfold get_paper_id. repeat case_match; apply sanitize_filename_safe. Qed.

Lemma replace_char_cons (a b c : ascii) (s : string) :
  replace_char a b (String c s) = String (if Ascii.eqb c a then b else c) (replace_char a b s).
Proof. reflexivity. Qed.

Lemma length_replace_char (a b : ascii) (s : string) :
  String.length (replace_char a b s) = String.length s.
Proof. induction s as [|c s IH]; [done|]. cbn. by f_equal. Qed.

Lemma plain_doi_replace (d : string) :
  plain_doi d = true ->
  all_chars safe_char (replace_char "/" "_" d) = true /\
  (String.length (replace_char "/" "_" d) <= 100)%nat.
Proof.
  unfold plain_doi. intros [Hd Hlen]%andb_prop. apply Nat.leb_le in Hlen.
  rewrite length_replace_char. split; [| done]. clear Hlen.
  induction d as [|c d IH]; [done|]. rewrite replace_char_cons.
  cbn [all_chars] in *. apply andb_prop in Hd as [Hc Hd]. rewrite (IH Hd), andb_true_r.
  apply andb_prop in Hc as [Hc _]. destruct (Ascii.eqb c "/") eqn:E; [reflexivity|].
  by rewrite orb_false_r in Hc.
Qed.

Lemma replace_char_injective (d1 : string) : forall d2,
  all_chars (fun c => negb (Ascii.eqb c "_")) d1 = true ->
  all_chars (fun c => negb (Ascii.eqb c "_")) d2 = true ->
  replace_char "/" "_" d1 = replace_char "/" "_" d2 -> d1 = d2.
Proof.
  induction d1 as [|c1 d1 IH]; intros [|c2 d2] H1 H2 Heq; try done.
  rewrite !replace_char_cons in Heq. cbn [all_chars] in *.
  apply andb_prop in H1 as [Hc1 H1]. apply andb_prop in H2 as [Hc2 H2].
  injection Heq as Hc Hd. rewrite (IH d2 H1 H2 Hd). f_equal.
  apply negb_true_iff in Hc1, Hc2.
  destruct (Ascii.eqb c1 "/") eqn:E1, (Ascii.eqb c2 "/") eqn:E2.
  - apply Ascii.eqb_eq in E1, E2. congruence.
  - subst c2. by rewrite Ascii.eqb_refl in Hc2.
  - subst c1. by rewrite Ascii.eqb_refl in Hc1.
  - done.
Qed.

(** X13. Where the ids are unique: two records with plain DOIs (at most
    100 characters, each a slash or a safe character, no underscore) get
    the same id only if their DOIs are the same. *)
Theorem get_paper_id_plain_doi (p1 p2 : paper) (d1 d2 : string) :
  doi p1 = Some d1 -> doi p2 = Some d2 ->
  nonempty d1 = true -> nonempty d2 = true ->
  plain_doi d1 = true -> plain_doi d2 = true ->
  get_paper_id p1 = get_paper_id p2 -> d1 = d2.
Proof.
  intros Hp1 Hp2 Hn1 Hn2 Hd1 Hd2. unfold get_paper_id, pick. rewrite Hp1, Hp2.
  destruct d1 as [|c1 d1]; [done|]. destruct d2 as [|c2 d2]; [done|]. cbn [truthy].
  destruct (plain_doi_replace _ Hd1) as [Hs1 Hl1].
  destruct (plain_doi_replace _ Hd2) as [Hs2 Hl2].
  rewrite !sanitize_filename_fixed by done.
  apply replace_char_injective.
  - unfold plain_doi in Hd1. apply andb_prop in Hd1 as [Hd1 _].
    eapply all_chars_weaken; [| exact Hd1]. intros c Hc. by apply andb_prop in Hc as [_ ?].
  - unfold plain_doi in Hd2. apply andb_prop in Hd2 as [Hd2 _].
    eapply all_chars_weaken; [| exact Hd2]. intros c Hc. by apply andb_prop in Hc as [_ ?].
Qed.

End id_properties.

(* ===================================================================== *)
(** * Properties of the catalog lookup                                    *)
(* ===================================================================== *)

Section catalog_properties.
Import download_pdfs generate_catalog.

Implicit Types (lookup : gmap string paper) (p q : paper) (k : string).

(** One record: its keys now lead to it, the others are as before. *)
Lemma add_paper_lookup lookup p k :
  add_paper lookup p !! k = if decide (k ∈ keys p) then Some p else lookup !! k.
Proof.
  unfold add_paper, keys.
  destruct (pick (doi p)), (pick (arxiv_id p)), (pick (post_id p)), (pick (paperId p));
    cbn [app]; rewrite ?lookup_insert; repeat case_decide; try done;
    rewrite ?elem_of_cons, ?elem_of_nil in *; intuition congruence.
Qed.

Lemma fold_add_paper_lookup papers : forall lookup k p,
  fold_left add_paper papers lookup !! k = Some p <->
  (exists before after,
     papers = before ++ p :: after /\ k ∈ keys p /\ Forall (fun q => k ∉ keys q) after) \/
  (Forall (fun q => k ∉ keys q) papers /\ lookup !! k = Some p).
Proof.
  induction papers as [|a papers IH]; intros lookup k p; cbn [fold_left].
  { split.
    - intros Hk. right. by split.
    - intros [(before & after & Heq & _)|[_ Hk]]; [by destruct before | done]. }
  rewrite IH, add_paper_lookup. split.
  - intros [(before & after & -> & Hin & Hafter)|[Hall Hk]].
    + left. exists (a :: before), after. done.
    + case_decide as Ha.
      * injection Hk as ->. left. exists [], papers. done.
      * right. split; [by constructor | done].
  - intros [(before & after & Heq & Hin & Hafter)|[Hall Hk]].
    + destruct before as [|b before]; cbn [app] in Heq; injection Heq as -> ->.
      * right. split; [done|]. by rewrite decide_True.
      * left. exists before, after. done.
    + apply Forall_cons in Hall as [Ha Hall]. right. split; [done|]. by rewrite decide_False.
Qed.

(** A key of some record is a key of the lookup, and leads to a record
    that has it. *)
Lemma fold_add_paper_covered papers : forall lookup k,
  (exists p, p ∈ papers /\ k ∈ keys p) \/ (exists q, lookup !! k = Some q /\ k ∈ keys q) ->
  exists q, fold_left add_paper papers lookup !! k = Some q /\ k ∈ keys q.
Proof.
  induction papers as [|a papers IH]; intros lookup k; cbn [fold_left].
  { intros [(p & Hp & _)|Hq]; [by apply elem_of_nil in Hp | done]. }
  intros [(p & Hp & Hk)|(q & Hq & Hk)]; apply IH.
  - apply elem_of_cons in Hp as [->|Hp].
    + right. exists a. split; [| done]. by rewrite add_paper_lookup, decide_True.
    + left. by exists p.
  - right. rewrite add_paper_lookup. case_decide; [by exists a | by exists q].
Qed.

(** The first key of a record is its download id before sanitization. *)
Lemma get_paper_id_first_key p k :
  head (keys p) = Some k -> get_paper_id p = sanitize_filename k.
Proof.
  unfold keys, get_paper_id.
  destruct (pick (doi p)), (pick (arxiv_id p)), (pick (post_id p)), (pick (paperId p));
    cbn [app head]; intros Hk; by simplify_eq.
Qed.

(** X21. What [load_papers] stores under a key is the last record of the
    input that has this key among its own (its DOI with slashes replaced,
    [arxiv_], [lw_] or [s2_] followed by the respective id); a key of no
    record is not in the lookup. *)
Theorem load_papers_last (papers : list paper) (k : string) (p : paper) :
  load_papers papers !! k = Some p <->
  exists before after,
    papers = before ++ p :: after /\ k ∈ keys p /\ Forall (fun q => k ∉ keys q) after.
Proof.
  unfold load_papers. rewrite fold_add_paper_lookup. split; [| by left].
  intros [?|[_ Hk]]; [done|]. by rewrite lookup_empty in Hk.
Qed.

(** X22. The lookup meets the ids of [download_pdfs.py] where no
    sanitization is needed: when the first key [k] of a record of the
    input is a file name that [sanitize_filename] leaves as it is, the
    lookup has an entry under the record's download id, and that entry is a
    record with this key. *)
Theorem download_id_in_lookup (papers : list paper) (p : paper) (k : string) :
  p ∈ papers -> head (keys p) = Some k -> sanitize_filename k = k ->
  exists q, load_papers papers !! get_paper_id p = Some q /\ get_paper_id p ∈ keys q.
Proof.
  intros Hp Hk Hfixed. rewrite (get_paper_id_first_key p k Hk), Hfixed.
  apply fold_add_paper_covered. left. exists p. split; [done|].
  apply head_Some in Hk as [l ->]. by left.
Qed.

End catalog_properties.

Section id_samples.
Import download_pdfs generate_catalog samples.

(** [get_paper_id_plain_doi] at two records with the DOI [10.1000/x]. *)
Lemma get_paper_id_plain_doi_witness : "10.1000/x" = "10.1000/x".
Proof.
  apply (get_paper_id_plain_doi (with_doi "10.1000/x" "http://host/x.pdf")
           (with_doi_title "10.1000/x" "Graph kernels") "10.1000/x" "10.1000/x");
    reflexivity.
Defined.

(** [download_id_in_lookup] at the first sample record. *)
Lemma download_id_in_lookup_witness :
  exists q,
    load_papers sample_papers !! get_paper_id (with_doi "10.1000/x" "http://host/x.pdf") = Some q /\
    get_paper_id (with_doi "10.1000/x" "http://host/x.pdf") ∈ keys q.
Proof.
  apply (download_id_in_lookup sample_papers (with_doi "10.1000/x" "http://host/x.pdf")
           "10.1000_x"); [left | reflexivity | vm_compute; reflexivity].
Defined.

End id_samples.

(* ===================================================================== *)
(** * Properties of a single download                                     *)
(* ===================================================================== *)

Section download_pdf_properties.
Import download_pdfs.

Variable net : nat -> attempt_result.
Variables url output_path paper_id : string.

Implicit Types (w : world) (n : nat).

Lemma fs_emit e w : fs (emit e w) = fs w.
Proof. done. Qed.

Lemma fs_backoff n w : fs (backoff n w) = fs w.
Proof. unfold backoff. by case_match. Qed.

Lemma fs_on_exception id e n w : fs (on_exception id e n w) = fs w.
Proof. unfold on_exception. by case_match. Qed.

(** An attempt that meets a transient error requests once, then sleeps or
    reports, and the loop goes on; the files are as before. *)
Lemma attempt_transient n w :
  transient (net n) = true ->
  attempt net url output_path paper_id n w =
  ({| fs := fs w; trace := trace w ++ EGet url n :: after_error paper_id n (net n) |}, None).
Proof.
  unfold attempt, transient, after_error, on_exception, backoff, emit.
  destruct (net n) as [e|status_code|ct content wr]; [| |done]; simpl.
  - intros _. case_match; simpl; by rewrite <- app_assoc.
  - intros Hp. apply negb_true_iff in Hp. rewrite Hp.
    case_match; simpl; by rewrite <- ?app_assoc, ?app_nil_r.
Qed.

(** An attempt that meets a permanent status requests once and returns
    [False]. *)
Lemma attempt_permanent n w status_code :
  net n = StatusError status_code -> permanent status_code = true ->
  attempt net url output_path paper_id n w = (emit (EGet url n) w, Some false).
Proof. unfold attempt. by intros -> ->. Qed.

(** Five transient errors in a row: five requests, one after the other,
    with sleeps of 1, 2, 4 and 8 seconds between them, then [False]. *)
Lemma download_pdf_transient w :
  (forall n, (n < MAX_RETRIES)%nat -> transient (net n) = true) ->
  download_pdf net url output_path paper_id w =
  ({| fs := fs w;
      trace := trace w ++
        [EGet url 0; ESleep (2 ^ 0); EGet url 1; ESleep (2 ^ 1); EGet url 2; ESleep (2 ^ 2);
         EGet url 3; ESleep (2 ^ 3); EGet url 4] ++ after_error paper_id 4 (net 4) |}, false).
Proof.
  intros H. unfold download_pdf. cbn [MAX_RETRIES seq attempts].
  rewrite !attempt_transient by (apply H; unfold MAX_RETRIES; lia).
  cbn [fs trace]. f_equal. f_equal. rewrite <- !app_assoc. reflexivity.
Qed.

(** What a call has done to the files when it ends in [r], having entered
    the attempts of [range] in [w]. *)
Local Abbreviation files_after range w r :=
  ((r.2 = true ->
    exists n content_type content,
      n ∈ range /\ net n = Response content_type content WriteOk /\
      fs r.1 !! output_path = Some content) /\
   (forall q, q <> output_path -> fs r.1 !! q = fs w !! q) /\
   (r.2 = false ->
    fs r.1 !! output_path = fs w !! output_path \/
    exists n content_type content k e,
      n ∈ range /\ net n = Response content_type content (WriteRaises k e) /\
      fs r.1 !! output_path = Some (firstn k content))).

(** An attempt that leaves the files alone, followed by the rest. *)
Lemma files_after_skip n (range : list nat) w w1 (r : world * bool) :
  fs w1 = fs w -> files_after range w1 r -> files_after (n :: range) w r.
Proof.
  intros Hfs (H1 & H2 & H3). rewrite Hfs in *. repeat split; [| done |].
  - intros Hr. destruct (H1 Hr) as (m & ct & content & ? & ? & ?).
    exists m, ct, content. rewrite elem_of_cons. auto.
  - intros Hr. destruct (H3 Hr) as [?|(m & ct & content & k & e & ? & ? & ?)]; [by left|].
    right. exists m, ct, content, k, e. rewrite elem_of_cons. auto.
Qed.

(** An attempt whose write raises mid-way, followed by the rest. *)
Lemma files_after_partial n (range : list nat) w w1 (r : world * bool) ct content k e :
  net n = Response ct content (WriteRaises k e) ->
  fs w1 = <[output_path := firstn k content]> (fs w) ->
  files_after range w1 r -> files_after (n :: range) w r.
Proof.
  intros Hn Hfs (H1 & H2 & H3). rewrite Hfs in *. repeat split.
  - intros Hr. destruct (H1 Hr) as (m & ct' & content' & ? & ? & ?).
    exists m, ct', content'. rewrite elem_of_cons. auto.
  - intros q Hq. rewrite H2 by done. by rewrite lookup_insert_ne.
  - intros Hr. right.
    destruct (H3 Hr) as [Hsame|(m & ct' & content' & k' & e' & ? & ? & ?)].
    + exists n, ct, content, k, e. rewrite Hsame, lookup_insert_eq, elem_of_cons. auto.
    + exists m, ct', content', k', e'. rewrite elem_of_cons. auto.
Qed.

Lemma attempts_files range : forall w,
  files_after range w (attempts net url output_path paper_id range w).
Proof.
  induction range as [|n range IH]; intros w; cbn [attempts].
  { simpl. repeat split; [done | by left]. }
  unfold attempt.
  destruct (net n) as [e|status_code|ct content wr] eqn:Hn.
  - eapply files_after_skip; [| apply IH]. by rewrite fs_on_exception.
  - destruct (permanent status_code).
    { simpl. repeat split; [done | by left]. }
    eapply files_after_skip; [| apply IH]. by rewrite fs_backoff.
  - destruct (negb _ && negb _ && _).
    { simpl. repeat split; [done | by left]. }
    destruct wr as [|e|k e].
    + simpl. repeat split; [| by intros; rewrite lookup_insert_ne | done].
      intros _. exists n, ct, content. rewrite lookup_insert_eq, elem_of_cons. auto.
    + eapply files_after_skip; [| apply IH]. by rewrite fs_on_exception.
    + eapply files_after_partial; [exact Hn | | apply IH]. by rewrite fs_on_exception.
Qed.

(** C1, as amended. [download_pdf] writes the body straight to the target
    path.  When it returns [True], the target path holds the whole body of
    a response whose write succeeded.  No other path is touched.  When it
    returns [False], the target path holds what it held before, or, if a
    write raised after the file was opened, the bytes written before the
    failure. *)
Theorem download_pdf_files w :
  let r := download_pdf net url output_path paper_id w in
  (r.2 = true ->
   exists n content_type content,
     (n < MAX_RETRIES)%nat /\ net n = Response content_type content WriteOk /\
     fs r.1 !! output_path = Some content) /\
  (forall q, q <> output_path -> fs r.1 !! q = fs w !! q) /\
  (r.2 = false ->
   fs r.1 !! output_path = fs w !! output_path \/
   exists n content_type content k e,
     (n < MAX_RETRIES)%nat /\ net n = Response content_type content (WriteRaises k e) /\
     fs r.1 !! output_path = Some (firstn k content)).
Proof.
  unfold download_pdf.
  destruct (attempts_files (seq 0 MAX_RETRIES) w) as (H1 & H2 & H3).
  repeat split; [| done |].
  - intros Hr. destruct (H1 Hr) as (n & ct & content & Hin & ? & ?).
    exists n, ct, content. apply elem_of_seq in Hin. split; [lia | done].
  - intros Hr. destruct (H3 Hr) as [?|(n & ct & content & k & e & Hin & ? & ?)]; [by left|].
    right. exists n, ct, content, k, e. apply elem_of_seq in Hin. split; [lia | done].
Qed.

(** ** Requests and sleeps *)

Lemma requests_app (a b : list event) : requests (a ++ b) = (requests a + requests b)%nat.
Proof. induction a as [|[] a IH]; cbn; lia. Qed.

Lemma slept_app (a b : list event) : slept (a ++ b) = (slept a + slept b)%nat.
Proof. induction a as [|[] a IH]; cbn; lia. Qed.

(** One attempt: one request, then at most the pause of that attempt. *)
Lemma attempt_events n w :
  exists after,
    trace (attempt net url output_path paper_id n w).1 = trace w ++ EGet url n :: after /\
    requests after = 0%nat /\ (slept after <= pause n)%nat.
Proof.
  unfold attempt, on_exception, backoff, pause, emit.
  destruct (net n) as [e|status_code|ct content [|e|k e]];
    repeat case_match; cbn [fst trace write_file];
    rewrite <- ?app_assoc; cbn [app]; eexists; (split; [reflexivity|]); cbn; lia.
Qed.

Lemma attempts_events range : forall w,
  exists new,
    trace (attempts net url output_path paper_id range w).1 = trace w ++ new /\
    (requests new <= length range)%nat /\
    (range <> [] -> 1 <= requests new)%nat /\
    (slept new <= sum_list (pause <$> range))%nat.
Proof.
  induction range as [|n range IH]; intros w; cbn [attempts].
  { exists []. rewrite app_nil_r. repeat split; [cbn; lia | done | cbn; lia]. }
  destruct (attempt_events n w) as (after & Htrace & Hreq & Hslept).
  destruct (attempt net url output_path paper_id n w) as [w1 [result|]]; cbn [fst] in *.
  - exists (EGet url n :: after). split; [done|].
    cbn [requests slept length fmap list_fmap sum_list]. unfold id in *.
    repeat split; intros; lia.
  - destruct (IH w1) as (new & Htrace' & Hreq' & _ & Hslept').
    exists ((EGet url n :: after) ++ new). rewrite Htrace', Htrace, <- app_assoc.
    split; [done|]. rewrite requests_app, slept_app.
    cbn [requests slept length fmap list_fmap sum_list]. unfold id in *.
    repeat split; intros; lia.
Qed.

(** X14. Whatever the network does, one call of [download_pdf] only adds
    to the trace, makes at least one and at most five requests, and sleeps
    at most 15 seconds in all. *)
Theorem download_pdf_bounded w :
  exists new,
    trace (download_pdf net url output_path paper_id w).1 = trace w ++ new /\
    (1 <= requests new <= MAX_RETRIES)%nat /\ (slept new <= 15)%nat.
Proof.
  unfold download_pdf.
  destruct (attempts_events (seq 0 MAX_RETRIES) w) as (new & Htrace & Hreq & Hone & Hslept).
  exists new. split; [done|]. rewrite length_seq in Hreq. split; [| exact Hslept].
  split; [by apply Hone | done].
Qed.

(** Transient errors at the head of the range are passed one by one. *)
Lemma attempts_transient_prefix (l1 : list nat) : forall l2 w,
  Forall (fun n => transient (net n) = true) l1 ->
  attempts net url output_path paper_id (l1 ++ l2) w =
  attempts net url output_path paper_id l2
    {| fs := fs w;
       trace := trace w ++ flat_map (fun n => EGet url n :: after_error paper_id n (net n)) l1 |}.
Proof.
  induction l1 as [|n l1 IH]; intros l2 w Hl1.
  { cbn. rewrite app_nil_r. by destruct w. }
  apply Forall_cons in Hl1 as [Hn Hl1]. cbn [app attempts flat_map].
  rewrite (attempt_transient n w Hn), IH by done. cbn [fs trace].
  by rewrite <- app_assoc.
Qed.

Lemma early_errors (k : nat) :
  (k < MAX_RETRIES)%nat ->
  flat_map (fun n => EGet url n :: after_error paper_id n (net n)) (seq 0 k)
  = flat_map (fun n => [EGet url n; ESleep (2 ^ n)]) (seq 0 k).
Proof.
  intros Hk. assert (Forall (fun n => n < MAX_RETRIES - 1)%nat (seq 0 k)) as Hall.
  { apply Forall_forall. intros n Hn%elem_of_seq. unfold MAX_RETRIES in *. lia. }
  induction Hall as [|n l Hn Hl IH]; [done|]. cbn [flat_map]. rewrite IH.
  unfold after_error. apply Nat.ltb_lt in Hn. by rewrite Hn.
Qed.

(** X15. A download that meets [k] transient errors, [k] below five, and
    then a response that is not taken for a landing page and is written
    without error: [download_pdf] returns [True] after [k + 1] requests,
    having slept 1, 2, ... seconds after the failed ones, and the target
    path holds the whole body. *)
Theorem succeeds_after_transient_errors w (k : nat) content_type content :
  (k < MAX_RETRIES)%nat ->
  (forall n, (n < k)%nat -> transient (net n) = true) ->
  net k = Response content_type content WriteOk ->
  landing_page url content_type = false ->
  download_pdf net url output_path paper_id w =
  ({| fs := <[output_path := content]> (fs w);
      trace := trace w ++ flat_map (fun n => [EGet url n; ESleep (2 ^ n)]) (seq 0 k)
                       ++ [EGet url k] |}, true).
Proof.
  intros Hk Htransient Hnet Hpage. unfold download_pdf.
  replace MAX_RETRIES with (k + S (MAX_RETRIES - S k))%nat by lia.
  rewrite seq_app. cbn [seq Nat.add].
  rewrite attempts_transient_prefix.
  2: { apply Forall_forall. intros n Hn%elem_of_seq. apply Htransient. lia. }
  rewrite (early_errors k Hk). cbn [attempts]. unfold attempt. rewrite Hnet.
  fold (landing_page url content_type). rewrite Hpage.
  unfold write_file, emit. cbn [fs trace]. by rewrite <- app_assoc.
Qed.

(** X16. A response whose content type has [html] and no [pdf] in it, for
    a link that does not end in [.pdf], is taken for a landing page: after
    that one request [download_pdf] returns [False] without writing, without
    sleeping and without another attempt. *)
Theorem landing_page_not_saved w content_type content wr :
  net 0%nat = Response content_type content wr ->
  landing_page url content_type = true ->
  download_pdf net url output_path paper_id w =
  ({| fs := fs w; trace := trace w ++ [EGet url 0] |}, false).
Proof.
  intros Hnet Hpage. unfold download_pdf. cbn [MAX_RETRIES seq attempts].
  unfold attempt. rewrite Hnet. fold (landing_page url content_type). by rewrite Hpage.
Qed.

End download_pdf_properties.

Section download_pdf_samples.
Import download_pdfs samples.

(** C1, counterexample. The first response arrives whole, the write raises
    after three of its eight bytes, and the four retries time out:
    [download_pdf] returns [False] and the target path, which did not exist
    before, now exists and holds the three bytes. *)
Lemma partial_file_left :
  exists_ "papers/10.1_x.pdf" fresh = false /\
  (download_pdf disk_full_then_timeouts "http://host/doc" "papers/10.1_x.pdf" "10.1_x" fresh).2
    = false /\
  exists_ "papers/10.1_x.pdf"
    (download_pdf disk_full_then_timeouts "http://host/doc" "papers/10.1_x.pdf" "10.1_x" fresh).1
    = true /\
  fs (download_pdf disk_full_then_timeouts "http://host/doc" "papers/10.1_x.pdf" "10.1_x" fresh).1
    !! "papers/10.1_x.pdf" = Some [Byte.x25; Byte.x50; Byte.x44] /\
  ~ whole_or_untouched disk_full_then_timeouts "papers/10.1_x.pdf" fresh
      (download_pdf disk_full_then_timeouts "http://host/doc" "papers/10.1_x.pdf" "10.1_x"
         fresh).1.
Proof.
  assert (fs (download_pdf disk_full_then_timeouts "http://host/doc" "papers/10.1_x.pdf"
                "10.1_x" fresh).1 !! "papers/10.1_x.pdf" = Some [Byte.x25; Byte.x50; Byte.x44])
    as Hfile by (vm_compute; reflexivity).
  do 3 (split; [vm_compute; reflexivity|]). split; [exact Hfile|].
  intros [Hsame|(n & ct & content & wr & Hn & Hwhole)]; rewrite Hfile in *.
  - vm_compute in Hsame. discriminate.
  - destruct n as [|n]; [| discriminate]. vm_compute in Hn. congruence.
Qed.

(** [download_pdf_files] on that network: the call returns [False], so the
    target path is untouched or holds the written part of a body. *)
Lemma download_pdf_files_witness :
  fs (download_pdf disk_full_then_timeouts "http://host/doc" "papers/10.1_x.pdf" "10.1_x" fresh).1
    !! "papers/10.1_x.pdf" = fs fresh !! "papers/10.1_x.pdf" \/
  exists n content_type content k e,
    (n < MAX_RETRIES)%nat /\
    disk_full_then_timeouts n = Response content_type content (WriteRaises k e) /\
    fs (download_pdf disk_full_then_timeouts "http://host/doc" "papers/10.1_x.pdf" "10.1_x"
          fresh).1 !! "papers/10.1_x.pdf" = Some (firstn k content).
Proof.
  apply (download_pdf_files disk_full_then_timeouts "http://host/doc" "papers/10.1_x.pdf"
           "10.1_x" fresh).
  vm_compute; reflexivity.
Defined.

(** [succeeds_after_transient_errors] at the second sample record, whose
    document arrives on the second attempt. *)
Lemma succeeds_after_transient_errors_witness :
  download_pdf (sample_net 1) "http://host/y" "papers/10.1000_y.pdf" "10.1000_y" sample_world =
  ({| fs := <["papers/10.1000_y.pdf" := pdf_body]> (fs sample_world);
      trace := trace sample_world
               ++ flat_map (fun n => [EGet "http://host/y" n; ESleep (2 ^ n)]) (seq 0 1)
               ++ [EGet "http://host/y" 1] |}, true).
Proof.
  apply (succeeds_after_transient_errors (sample_net 1) "http://host/y" "papers/10.1000_y.pdf"
           "10.1000_y" sample_world 1 "application/pdf" pdf_body).
  - unfold MAX_RETRIES. lia.
  - intros n Hn. destruct n; [reflexivity | lia].
  - reflexivity.
  - vm_compute; reflexivity.
Defined.

(** [landing_page_not_saved] at a server that answers with an HTML page. *)
Lemma landing_page_not_saved_witness :
  download_pdf landing_pages "http://host/y" "papers/10.1000_y.pdf" "10.1000_y" sample_world =
  ({| fs := fs sample_world; trace := trace sample_world ++ [EGet "http://host/y" 0] |}, false).
Proof.
  apply (landing_page_not_saved landing_pages "http://host/y" "papers/10.1000_y.pdf"
           "10.1000_y" sample_world "text/html; charset=utf-8" pdf_body WriteOk).
  - reflexivity.
  - vm_compute; reflexivity.
Defined.

End download_pdf_samples.

(* ===================================================================== *)
(** * Properties of the download scheduler                                *)
(* ===================================================================== *)

Section collect_properties.
Import download_pdfs.

Context {B : Type} (f : paper -> task -> list B).

(** Replacing the state of a coroutine that contributed nothing adds what
    its new state contributes. *)
Lemma collect_insert (papers : list paper) : forall (ts : list task) i p t t',
  papers !! i = Some p -> ts !! i = Some t -> f p t = [] ->
  collect f papers (<[i := t']> ts) ≡ₚ collect f papers ts ++ f p t'.
Proof.
  induction papers as [|p0 papers IH]; intros ts i p t t' Hp Ht Hf; [done|].
  destruct ts as [|t0 ts]; [done|]. destruct i as [|i]; simpl in *.
  - simplify_eq. rewrite Hf. simpl. apply Permutation_app_comm.
  - rewrite (IH ts i p t t') by done. by rewrite app_assoc.
Qed.

Lemma collect_replicate (papers : list paper) n t :
  (forall p, f p t = []) -> collect f papers (replicate n t) = [].
Proof.
  intros Hf. revert n. induction papers as [|p papers IH]; intros [|n]; simpl; try done.
  by rewrite Hf, IH.
Qed.

End collect_properties.

Section scheduler_properties.
Import download_pdfs.

Variable net : nat -> nat -> attempt_result.
Variable papers : list paper.
Variable output_dir : string.

Implicit Types (st : state) (i : nat) (t : task) (o : outcome).

Lemma ended_in_not_done o p t : is_done t = false -> ended_in o p t = [].
Proof. unfold ended_in. destruct t; try done; by case_decide. Qed.

Lemma file_of_not_done p t : is_done t = false -> file_of output_dir p t = [].
Proof. by destruct t. Qed.

Lemma failure_of_not_done p t : is_done t = false -> failure_of p t = [].
Proof. by destruct t. Qed.

Lemma count_outcome_insert o (ts : list task) i p t t' :
  papers !! i = Some p -> ts !! i = Some t -> is_done t = false ->
  count_outcome o papers (<[i := t']> ts) =
  (count_outcome o papers ts + length (ended_in o p t'))%nat.
Proof.
  intros Hp Ht Hd. unfold count_outcome.
  rewrite (collect_insert _ papers ts i p t t' Hp Ht (ended_in_not_done o p t Hd)).
  by rewrite length_app.
Qed.

Lemma consistent_insert (ts : list task) i p t' :
  papers !! i = Some p -> consistent output_dir p t' ->
  Forall2 (consistent output_dir) papers ts ->
  Forall2 (consistent output_dir) papers (<[i := t']> ts).
Proof.
  intros Hp Ht' H. rewrite <- (list_insert_id papers i p Hp). by apply Forall2_insert.
Qed.

Lemma pick_Some (v : option string) u : pick v = Some u -> v = Some u.
Proof. unfold pick. by destruct (truthy v). Qed.

(** The stats stay in step when a coroutine that had not ended changes
    state and every entry of the stats grows by what the new state
    contributes. *)
Lemma accounted_update st i p t t' (s' : stats) (w' : world) (k : nat) :
  papers !! i = Some p -> tasks st !! i = Some t -> is_done t = false ->
  accounted papers output_dir st ->
  consistent output_dir p t' ->
  total s' = total (st_stats st) ->
  downloaded s' = (downloaded (st_stats st) + length (ended_in Downloaded p t'))%nat ->
  skipped_no_url s' = (skipped_no_url (st_stats st) + length (ended_in SkippedNoUrl p t'))%nat ->
  skipped_exists s' =
    (skipped_exists (st_stats st) + length (ended_in SkippedExisting p t'))%nat ->
  failed s' = (failed (st_stats st) + length (ended_in Failed p t'))%nat ->
  downloaded_files s' = downloaded_files (st_stats st) ++ file_of output_dir p t' ->
  failed_papers s' = failed_papers (st_stats st) ++ failure_of p t' ->
  accounted papers output_dir
    {| st_world := w'; st_stats := s'; permits := k; tasks := <[i := t']> (tasks st) |}.
Proof.
  intros Hp Ht Hnd (Hc & Htot & Hd & Hn & He & Hf & Hfiles & Hfails)
    Hc' Htot' Hd' Hn' He' Hf' Hfiles' Hfails'.
  unfold accounted; cbn [st_stats tasks].
  rewrite !(count_outcome_insert _ _ i p t t' Hp Ht Hnd).
  rewrite (collect_insert _ _ _ i p t t' Hp Ht (file_of_not_done p t Hnd)).
  rewrite (collect_insert _ _ _ i p t t' Hp Ht (failure_of_not_done p t Hnd)).
  rewrite Hfiles', Hfails', Hfiles, Hfails.
  repeat split; try congruence; try reflexivity. by apply (consistent_insert _ i p).
Qed.

(** Every resumption keeps the stats in step with the coroutines. *)
Lemma step_accounted st i :
  accounted papers output_dir st -> accounted papers output_dir (step net papers output_dir st i).
Proof.
  intros Hacc. unfold step, download_with_semaphore.
  destruct (papers !! i) as [p|] eqn:Hp; [| done].
  destruct (tasks st !! i) as [t|] eqn:Ht; [| done].
  assert (consistent output_dir p t) as Hpt.
  { destruct Hacc as [Hc _]. eapply Forall2_lookup_lr; eauto. }
  destruct t as [|paper_id pdf_url output_path|paper_id pdf_url output_path|o]; [| | |done].
  - (* the coroutine starts *)
    unfold start, set_task. destruct (pick (get_pdf_url p)) as [pdf_url|] eqn:Hurl.
    + destruct (exists_ _ _).
      * eapply (accounted_update st i p Created); eauto; cbn; by rewrite ?app_nil_r.
      * eapply (accounted_update st i p Created); eauto; cbn; by rewrite ?app_nil_r.
    + eapply (accounted_update st i p Created); eauto; cbn; by rewrite ?app_nil_r.
  - (* the coroutine asks for a permit *)
    unfold acquire. destruct (permits st) eqn:Hpermits; [exact Hacc|].
    eapply (accounted_update st i p); eauto; cbn; by rewrite ?app_nil_r.
  - (* the coroutine downloads and returns *)
    destruct Hpt as (-> & Hurl%pick_Some & ->).
    unfold finish. destruct (download_pdf _ _ _ _ _) as [w [|]].
    + eapply (accounted_update st i p); eauto; cbn; by rewrite ?app_nil_r.
    + eapply (accounted_update st i p); eauto; cbn; by rewrite ?app_nil_r, ?Hurl.
Qed.

(** The stats are in step with the coroutines before any has started. *)
Lemma initial_accounted max_concurrent (w : world) :
  accounted papers output_dir (initial papers max_concurrent w).
Proof.
  unfold accounted, initial, count_outcome; cbn.
  rewrite !collect_replicate by (intros; reflexivity). repeat split; try done.
  apply Forall2_replicate_r; [done|]. by apply Forall_true.
Qed.

(** ... and along every schedule. *)
Lemma run_accounted max_concurrent (w : world) (schedule : list nat) :
  accounted papers output_dir (run net papers output_dir max_concurrent w schedule).
Proof.
  unfold run. generalize (initial_accounted max_concurrent w).
  generalize (initial papers max_concurrent w).
  induction schedule as [|i schedule IH]; intros st Hst; [done|].
  cbn [fold_left]. apply IH. by apply step_accounted.
Qed.

(** When every coroutine has returned, each record has ended in exactly one
    of the four outcomes. *)
Lemma count_outcomes_all_done : forall (ps : list paper) (ts : list task),
  length ps = length ts -> forallb is_done ts = true ->
  (count_outcome Downloaded ps ts + count_outcome SkippedNoUrl ps ts +
   count_outcome SkippedExisting ps ts + count_outcome Failed ps ts = length ps)%nat.
Proof.
  unfold count_outcome.
  induction ps as [|p ps IH]; intros [|t ts] Hlen Hdone; try done.
  cbn in Hlen, Hdone. apply andb_prop in Hdone as [Ht Hts].
  specialize (IH ts ltac:(lia) Hts). cbn [collect]. rewrite !length_app.
  set (a := length (collect (ended_in Downloaded) ps ts)) in *.
  set (b := length (collect (ended_in SkippedNoUrl) ps ts)) in *.
  set (c := length (collect (ended_in SkippedExisting) ps ts)) in *.
  set (d := length (collect (ended_in Failed) ps ts)) in *.
  destruct t as [| | |[]]; try done; unfold ended_in;
    repeat case_decide; simplify_eq; cbn [length]; lia.
Qed.

(** C9. Whatever the network answers and in whatever order the event loop
    resumes the coroutines, when [download_all] returns its stats the four
    counters add up to [total], which is the number of input records: every
    record has ended in exactly one outcome. *)
Theorem download_all_counters (max_concurrent : nat) (w : world) (schedule : list nat)
    (s : stats) :
  download_all net papers output_dir max_concurrent w schedule = Some s ->
  (downloaded s + skipped_no_url s + skipped_exists s + failed s = total s)%nat /\
  total s = length papers.
Proof.
  unfold download_all, all_done.
  destruct (forallb _ _) eqn:Hdone; [| done]. intros [= <-].
  destruct (run_accounted max_concurrent w schedule)
    as (Hc & Htot & -> & -> & -> & -> & _).
  split; [| done]. rewrite Htot.
  apply count_outcomes_all_done; [| done]. by eapply Forall2_length.
Qed.

(** C10. When [download_all] returns, [downloaded_files] holds, in the
    order of completion, the target path of every record that ended in
    [SkippedExisting] and of every record that ended in [Downloaded], once
    each and nothing else; [failed_papers] holds one entry (id, title, url)
    for every record that ended in [Failed], and nothing else. *)
Theorem download_all_lists (max_concurrent : nat) (w : world) (schedule : list nat)
    (s : stats) :
  download_all net papers output_dir max_concurrent w schedule = Some s ->
  downloaded_files s ≡ₚ
    collect (file_of output_dir) papers
      (tasks (run net papers output_dir max_concurrent w schedule)) /\
  failed_papers s ≡ₚ
    collect failure_of papers (tasks (run net papers output_dir max_concurrent w schedule)).
Proof.
  unfold download_all. destruct (all_done _); [| done]. intros [= <-].
  by destruct (run_accounted max_concurrent w schedule) as (_ & _ & _ & _ & _ & _ & ? & ?).
Qed.

(** C6. When each of the five attempts of a download meets a transient
    error (an exception of the request such as a timeout or a connection
    failure, or a status error outside 403, 404 and 451, such as a 5xx),
    [download_pdf] requests exactly five times, one attempt after the
    other, sleeping 1, 2, 4 and 8 seconds (2 to the power of the attempt
    number) between consecutive attempts; after the fifth it returns
    [False], having reported the last exception if there was one, and the
    coroutine ends the record in [Failed]. *)
Theorem transient_errors_exhaust_retries st i p paper_id pdf_url output_path :
  papers !! i = Some p ->
  tasks st !! i = Some (Running paper_id pdf_url output_path) ->
  (forall n, (n < MAX_RETRIES)%nat -> transient (net i n) = true) ->
  let w' :=
    {| fs := fs (st_world st);
       trace := trace (st_world st) ++
         [EGet pdf_url 0; ESleep (2 ^ 0); EGet pdf_url 1; ESleep (2 ^ 1);
          EGet pdf_url 2; ESleep (2 ^ 2); EGet pdf_url 3; ESleep (2 ^ 3); EGet pdf_url 4]
         ++ after_error paper_id 4 (net i 4) |} in
  download_pdf (net i) pdf_url output_path paper_id (st_world st) = (w', false) /\
  step net papers output_dir st i =
    {| st_world := w';
       st_stats := count_failed {| fp_id := paper_id; fp_title := title p; fp_url := pdf_url |}
                     (st_stats st);
       permits := permits st + 1;
       tasks := <[i := Done Failed]> (tasks st) |}.
Proof.
  intros Hp Ht Hnet w'.
  pose proof (download_pdf_transient (net i) pdf_url output_path paper_id (st_world st) Hnet)
    as Hdl.
  split; [exact Hdl|]. unfold step, download_with_semaphore, finish. by rewrite Hp, Ht, Hdl.
Qed.

(** C5. When the first attempt of a download meets status 403, 404 or
    451, [download_pdf] makes that one request and returns [False] without
    sleeping or retrying, and the coroutine ends the record in [Failed],
    with its entry appended to [failed_papers]. *)
Theorem permanent_failure_single_attempt st i p paper_id pdf_url output_path status_code :
  papers !! i = Some p ->
  tasks st !! i = Some (Running paper_id pdf_url output_path) ->
  net i 0 = StatusError status_code ->
  status_code ∈ [403; 404; 451] ->
  download_pdf (net i) pdf_url output_path paper_id (st_world st) =
    ({| fs := fs (st_world st); trace := trace (st_world st) ++ [EGet pdf_url 0] |}, false) /\
  step net papers output_dir st i =
    {| st_world := {| fs := fs (st_world st); trace := trace (st_world st) ++ [EGet pdf_url 0] |};
       st_stats := count_failed {| fp_id := paper_id; fp_title := title p; fp_url := pdf_url |}
                     (st_stats st);
       permits := permits st + 1;
       tasks := <[i := Done Failed]> (tasks st) |}.
Proof.
  intros Hp Ht Hnet Hcode.
  assert (download_pdf (net i) pdf_url output_path paper_id (st_world st) =
          (emit (EGet pdf_url 0) (st_world st), false)) as Hdl.
  { unfold download_pdf. cbn [MAX_RETRIES seq attempts].
    rewrite (attempt_permanent _ _ _ _ _ _ status_code Hnet); [done|].
    by apply bool_decide_eq_true. }
  split; [exact Hdl|]. unfold step, download_with_semaphore, finish. by rewrite Hp, Ht, Hdl.
Qed.

End scheduler_properties.

Section scheduler_progress.
Import download_pdfs.

Variable net : nat -> nat -> attempt_result.
Variable papers : list paper.
Variable output_dir : string.

Implicit Types (st : state) (i j k : nat) (t : task).

Local Abbreviation step' := (step net papers output_dir).

Lemma step_length st i : length (tasks (step' st i)) = length (tasks st).
Proof.
  unfold step, download_with_semaphore. repeat case_match; try done;
    unfold start, acquire, finish, set_task; repeat case_match; cbn; by rewrite ?length_insert.
Qed.

Lemma step_other st i j : j <> i -> tasks (step' st i) !! j = tasks st !! j.
Proof.
  intros Hne. unfold step, download_with_semaphore. repeat case_match; try done;
    unfold start, acquire, finish, set_task; repeat case_match; cbn;
    by rewrite ?list_lookup_insert_ne.
Qed.

(** Resuming a coroutine that has returned changes nothing. *)
Lemma step_done st i o : tasks st !! i = Some (Done o) -> step' st i = st.
Proof. intros Ht. unfold step, download_with_semaphore. rewrite Ht. by case_match. Qed.

(** A coroutine that is resumed for the first time returns or stops at
    the semaphore; the permits are as before. *)
Lemma step_created st i p :
  papers !! i = Some p -> tasks st !! i = Some Created ->
  permits (step' st i) = permits st /\
  exists t, tasks (step' st i) !! i = Some t /\ parked t = true.
Proof.
  intros Hp Ht. pose proof (lookup_lt_Some _ _ _ Ht) as Hi.
  unfold step, download_with_semaphore. rewrite Hp, Ht. unfold start, set_task.
  repeat case_match; cbn; (split; [done|]); rewrite list_lookup_insert_eq by done; eauto.
Qed.

(** A coroutine at the semaphore that is resumed twice while a permit is
    left takes it, downloads, returns and gives the permit back. *)
Lemma step_waiting st i p paper_id pdf_url output_path :
  papers !! i = Some p -> tasks st !! i = Some (Waiting paper_id pdf_url output_path) ->
  (0 < permits st)%nat ->
  permits (step' (step' st i) i) = permits st /\
  exists o, tasks (step' (step' st i) i) !! i = Some (Done o).
Proof.
  intros Hp Ht Hpermits. pose proof (lookup_lt_Some _ _ _ Ht) as Hi.
  assert (step' st i =
          {| st_world := st_world st; st_stats := st_stats st; permits := permits st - 1;
             tasks := <[i := Running paper_id pdf_url output_path]> (tasks st) |}) as ->.
  { unfold step, download_with_semaphore. rewrite Hp, Ht. unfold acquire.
    destruct (permits st) as [|k]; [lia|]. do 2 f_equal. lia. }
  unfold step, download_with_semaphore. cbn [tasks]. rewrite Hp, list_lookup_insert_eq by done.
  unfold finish. cbn [st_world st_stats permits tasks].
  destruct (download_pdf _ _ _ _ _) as [w [|]]; cbn;
    (split; [lia|]); rewrite list_lookup_insert_eq by (by rewrite length_insert); eauto.
Qed.

(** The first phase of [in_order]: coroutines [k], [k+1], ... are started
    in turn. *)
Lemma start_phase d : forall k st,
  length (tasks st) = length papers -> (k + d <= length papers)%nat ->
  (forall j t, tasks st !! j = Some t -> (j < k)%nat -> parked t = true) ->
  (forall j t, tasks st !! j = Some t -> (k <= j)%nat -> t = Created) ->
  let st' := fold_left step' (seq k d) st in
  length (tasks st') = length papers /\ permits st' = permits st /\
  forall j t, tasks st' !! j = Some t ->
    ((j < k + d)%nat -> parked t = true) /\ ((k + d <= j)%nat -> t = Created).
Proof.
  induction d as [|d IH]; intros k st Hlen Hk Hlow Hhigh; cbn [seq fold_left].
  { rewrite Nat.add_0_r. repeat split; eauto. }
  destruct (lookup_lt_is_Some_2 papers k ltac:(lia)) as [p Hp].
  destruct (lookup_lt_is_Some_2 (tasks st) k ltac:(lia)) as [t Ht].
  pose proof (Hhigh k t Ht ltac:(lia)) as ->.
  destruct (step_created st k p Hp Ht) as (Hpermits & t' & Ht' & Hparked).
  destruct (IH (S k) (step' st k)) as (Hlen' & Hpermits' & Hall).
  - by rewrite step_length.
  - lia.
  - intros j t Hj Hlt. destruct (decide (j = k)) as [->|Hne]; [congruence|].
    rewrite step_other in Hj by done. apply (Hlow j t Hj). lia.
  - intros j t Hj Hle. rewrite step_other in Hj by lia. apply (Hhigh j t Hj). lia.
  - replace (k + S d)%nat with (S k + d)%nat by lia. repeat split; try congruence; by apply Hall.
Qed.

(** The second phase: coroutines [k], [k+1], ... are resumed twice each. *)
Lemma finish_phase d : forall k st,
  length (tasks st) = length papers -> (k + d <= length papers)%nat ->
  (0 < permits st)%nat ->
  (forall j t, tasks st !! j = Some t -> (j < k)%nat -> is_done t = true) ->
  (forall j t, tasks st !! j = Some t -> (k <= j)%nat -> parked t = true) ->
  let st' := fold_left step' (flat_map (fun i => [i; i]) (seq k d)) st in
  length (tasks st') = length papers /\
  forall j t, tasks st' !! j = Some t -> (j < k + d)%nat -> is_done t = true.
Proof.
  induction d as [|d IH]; intros k st Hlen Hk Hpermits Hlow Hhigh; cbn [seq flat_map fold_left app].
  { rewrite Nat.add_0_r. split; eauto. }
  destruct (lookup_lt_is_Some_2 papers k ltac:(lia)) as [p Hp].
  destruct (lookup_lt_is_Some_2 (tasks st) k ltac:(lia)) as [t Ht].
  pose proof (Hhigh k t Ht ltac:(lia)) as Hparked.
  assert (permits (step' (step' st k) k) = permits st /\
          exists o, tasks (step' (step' st k) k) !! k = Some (Done o)) as (Hpermits' & o & Hdone).
  { destruct t as [|paper_id pdf_url output_path| |o]; try done.
    - by apply (step_waiting st k p paper_id pdf_url output_path).
    - rewrite !(step_done st k o Ht). eauto. }
  destruct (IH (S k) (step' (step' st k) k)) as (Hlen' & Hall).
  - by rewrite !step_length.
  - lia.
  - lia.
  - intros j t' Hj Hlt. destruct (decide (j = k)) as [->|Hne]; [by simplify_eq|].
    rewrite !step_other in Hj by done. apply (Hlow j t' Hj). lia.
  - intros j t' Hj Hle. rewrite !step_other in Hj by lia. apply (Hhigh j t' Hj). lia.
  - replace (k + S d)%nat with (S k + d)%nat by lia. split; [done|]. apply Hall.
Qed.

(** X1. With at least one permit, and records that each have an id key or
    a title string, [download_all] returns: resumed in the order of the
    list, every coroutine returns. *)
Theorem download_all_returns (max_concurrent : nat) (w : world) :
  (0 < max_concurrent)%nat ->
  Forall (fun p => id_defined p = true) papers ->
  is_Some (download_all net papers output_dir max_concurrent w (in_order papers)).
Proof.
  intros Hpermits _. unfold download_all.
  assert (all_done (run net papers output_dir max_concurrent w (in_order papers)) = true)
    as ->; [| by eexists].
  unfold run, in_order. rewrite fold_left_app.
  destruct (start_phase (length papers) 0 (initial papers max_concurrent w))
    as (Hlen & Hperm & Hall); cbn.
  - by rewrite length_replicate.
  - done.
  - intros; lia.
  - intros j t Hj _. by apply lookup_replicate in Hj as [-> _].
  - destruct (finish_phase (length papers) 0
                (fold_left step' (seq 0 (length papers)) (initial papers max_concurrent w)))
      as (Hlen' & Hall'); cbn.
    + done.
    + done.
    + cbn in Hperm. lia.
    + intros; lia.
    + intros j t Hj _. apply (Hall j t Hj). by apply lookup_lt_Some in Hj; lia.
    + unfold all_done. apply Is_true_true, forallb_True, Forall_lookup.
      intros j t Hj. apply Is_true_true, (Hall' j t Hj).
      apply lookup_lt_Some in Hj. lia.
Qed.

(** ** The admission gate *)

Lemma in_flight_insert (ts : list task) : forall i t t',
  ts !! i = Some t ->
  (in_flight (<[i := t']> ts) + (if running t then 1 else 0) =
   in_flight ts + (if running t' then 1 else 0))%nat.
Proof.
  induction ts as [|t0 ts IH]; intros [|i] t t' Ht; simplify_eq/=; [lia|].
  specialize (IH i t t' Ht). lia.
Qed.

Lemma in_flight_replicate n : in_flight (replicate n Created) = 0%nat.
Proof. induction n; [done | by cbn]. Qed.

Lemma step_in_flight st i :
  (in_flight (tasks (step' st i)) + permits (step' st i) = in_flight (tasks st) + permits st)%nat.
Proof.
  unfold step, download_with_semaphore.
  destruct (papers !! i) as [p|]; [| done].
  destruct (tasks st !! i) as [t|] eqn:Ht; [| done].
  destruct t as [|paper_id pdf_url output_path|paper_id pdf_url output_path|o]; [| | |done].
  - unfold start, set_task. repeat case_match; cbn [tasks permits];
      pose proof (in_flight_insert (tasks st) i Created) as Hins;
      match goal with |- context [<[i := ?t']> _] => specialize (Hins t' Ht) end;
      cbn in Hins; lia.
  - unfold acquire. destruct (permits st) as [|k] eqn:Hk; [lia|]. cbn [tasks permits].
    pose proof (in_flight_insert (tasks st) i _
                  (Running paper_id pdf_url output_path) Ht) as Hins.
    cbn in Hins. lia.
  - unfold finish. destruct (download_pdf _ _ _ _ _) as [w [|]]; cbn [tasks permits];
      pose proof (in_flight_insert (tasks st) i (Running paper_id pdf_url output_path)) as Hins;
      match goal with |- context [<[i := ?t']> _] => specialize (Hins t' Ht) end;
      cbn in Hins; lia.
Qed.

(** X4. Along every schedule, the coroutines inside the semaphore and the
    permits left add up to [max_concurrent]: never more than
    [max_concurrent] downloads are in flight. *)
Theorem in_flight_bounded (max_concurrent : nat) (w : world) (schedule : list nat) :
  (in_flight (tasks (run net papers output_dir max_concurrent w schedule))
   + permits (run net papers output_dir max_concurrent w schedule) = max_concurrent)%nat.
Proof.
  unfold run.
  assert (in_flight (tasks (initial papers max_concurrent w))
          + permits (initial papers max_concurrent w) = max_concurrent)%nat as Hinit.
  { cbn. by rewrite in_flight_replicate. }
  revert Hinit. generalize (initial papers max_concurrent w).
  induction schedule as [|i schedule IH]; intros st Hst; [done|].
  cbn [fold_left]. apply IH. by rewrite step_in_flight.
Qed.

(** A record without a link is skipped when its coroutine starts: no
    request is made and no file is written. *)
Theorem no_url_skipped st i p :
  papers !! i = Some p -> tasks st !! i = Some Created ->
  pick (get_pdf_url p) = None ->
  step' st i =
    {| st_world := st_world st; st_stats := count_no_url (st_stats st);
       permits := permits st; tasks := <[i := Done SkippedNoUrl]> (tasks st) |}.
Proof. intros Hp Ht Hurl. unfold step, download_with_semaphore, start. by rewrite Hp, Ht, Hurl. Qed.

End scheduler_progress.

Section scheduler_files.
Import download_pdfs.

Variable net : nat -> nat -> attempt_result.
Variable papers : list paper.
Variable output_dir : string.

Implicit Types (st : state) (i : nat) (t : task) (w : world).

Local Abbreviation step' := (step net papers output_dir).

(** [download_pdf] writes at its target path only. *)
Lemma download_pdf_frame (n : nat -> attempt_result) url output_path paper_id w q :
  q <> output_path ->
  fs (download_pdf n url output_path paper_id w).1 !! q = fs w !! q.
Proof.
  intros Hq. unfold download_pdf.
  destruct (attempts_files n url output_path paper_id (seq 0 MAX_RETRIES) w) as (_ & H & _).
  by apply H.
Qed.

(** [download_pdf] removes no file. *)
Lemma download_pdf_keeps (n : nat -> attempt_result) url output_path paper_id w q :
  is_Some (fs w !! q) ->
  is_Some (fs (download_pdf n url output_path paper_id w).1 !! q).
Proof.
  intros Hq. destruct (decide (q = output_path)) as [->|Hne].
  - unfold download_pdf.
    destruct (attempts_files n url output_path paper_id (seq 0 MAX_RETRIES) w)
      as (H1 & _ & H3).
    destruct (attempts n url output_path paper_id (seq 0 MAX_RETRIES) w) as [w' [|]];
      cbn [fst snd] in *.
    + destruct (H1 eq_refl) as (? & ? & ? & _ & _ & ->). by eexists.
    + destruct (H3 eq_refl) as [->|(? & ? & ? & ? & ? & _ & _ & ->)]; [done | by eexists].
  - by rewrite download_pdf_frame.
Qed.

(** After a successful [download_pdf] the target path exists. *)
Lemma download_pdf_written (n : nat -> attempt_result) url output_path paper_id w :
  (download_pdf n url output_path paper_id w).2 = true ->
  is_Some (fs (download_pdf n url output_path paper_id w).1 !! output_path).
Proof.
  unfold download_pdf. intros Hr.
  destruct (attempts_files n url output_path paper_id (seq 0 MAX_RETRIES) w) as (H1 & _).
  destruct (H1 Hr) as (? & ? & ? & _ & _ & ->). by eexists.
Qed.

(** ** Files that were there before the run *)

Lemma step_keeps_old_files (w0 : world) st i :
  (forall q data, fs w0 !! q = Some data -> fs (st_world st) !! q = Some data) ->
  Forall (fun t => forall path, pending_path t = Some path -> fs w0 !! path = None) (tasks st) ->
  (forall q data, fs w0 !! q = Some data -> fs (st_world (step' st i)) !! q = Some data) /\
  Forall (fun t => forall path, pending_path t = Some path -> fs w0 !! path = None)
    (tasks (step' st i)).
Proof.
  intros Hold Hpending. unfold step, download_with_semaphore.
  destruct (papers !! i) as [p|]; [| done].
  destruct (tasks st !! i) as [t|] eqn:Ht; [| done].
  pose proof (proj1 (Forall_lookup _ _) Hpending i t Ht) as Hpath.
  destruct t as [|paper_id pdf_url output_path|paper_id pdf_url output_path|o]; [| | |done].
  - unfold start, set_task. destruct (pick (get_pdf_url p)) as [pdf_url|].
    + destruct (exists_ _ _) eqn:Hex; cbn [st_world tasks]; (split; [done|]);
        apply Forall_insert; try done.
      intros path [= <-]. unfold exists_ in Hex. apply bool_decide_eq_false in Hex.
      destruct (fs w0 !! target_path output_dir (get_paper_id p)) as [data|] eqn:E; [| done].
      exfalso. apply Hex. rewrite (Hold _ _ E). by eexists.
    + cbn [st_world tasks]. split; [done|]. by apply Forall_insert.
  - unfold acquire. destruct (permits st); [done|]. cbn [st_world tasks]. split; [done|].
    apply Forall_insert; [done|]. intros path [= <-]. by apply Hpath.
  - unfold finish.
    assert (forall q data, fs w0 !! q = Some data ->
              fs (download_pdf (net i) pdf_url output_path paper_id (st_world st)).1 !! q
              = Some data) as Hkept.
    { intros q data Hq. rewrite download_pdf_frame; [by apply Hold|].
      intros ->. rewrite (Hpath output_path eq_refl) in Hq. done. }
    destruct (download_pdf _ _ _ _ _) as [w' [|]]; cbn [st_world tasks fst] in *;
      (split; [done|]); by apply Forall_insert.
Qed.

(** X17. A run of [download_all] never changes a file that was in the
    output directory before: in whatever order the coroutines are resumed
    and whatever the network answers, such a file is there afterwards with
    the same content. *)
Theorem old_files_untouched (max_concurrent : nat) (w : world) (schedule : list nat)
    (q : string) (data : list Byte.byte) :
  fs w !! q = Some data ->
  fs (st_world (run net papers output_dir max_concurrent w schedule)) !! q = Some data.
Proof.
  unfold run.
  assert ((forall q data, fs w !! q = Some data ->
             fs (st_world (initial papers max_concurrent w)) !! q = Some data) /\
          Forall (fun t => forall path, pending_path t = Some path -> fs w !! path = None)
            (tasks (initial papers max_concurrent w))) as Hinit.
  { split; [done|]. cbn. apply Forall_replicate. done. }
  revert Hinit. generalize (initial papers max_concurrent w).
  induction schedule as [|i schedule IH]; intros st [Hold Hpending] Hq; [by apply Hold|].
  cbn [fold_left]. apply IH; [| done]. by apply step_keeps_old_files.
Qed.

(** ** The files the stats list *)

Lemma step_listed_files st i :
  Forall (fun path => is_Some (fs (st_world st) !! path)) (downloaded_files (st_stats st)) ->
  Forall (fun path => is_Some (fs (st_world (step' st i)) !! path))
    (downloaded_files (st_stats (step' st i))).
Proof.
  intros Hlisted. unfold step, download_with_semaphore.
  destruct (papers !! i) as [p|]; [| done].
  destruct (tasks st !! i) as [t|] eqn:Ht; [| done].
  destruct t as [|paper_id pdf_url output_path|paper_id pdf_url output_path|o]; [| | |done].
  - unfold start, set_task. destruct (pick (get_pdf_url p)) as [pdf_url|]; [| done].
    destruct (exists_ _ _) eqn:Hex; [| done]. cbn [st_world st_stats count_exists downloaded_files].
    apply Forall_app. split; [done|]. repeat constructor.
    unfold exists_ in Hex. by apply bool_decide_eq_true in Hex.
  - unfold acquire. by destruct (permits st).
  - unfold finish.
    pose proof (download_pdf_written (net i) pdf_url output_path paper_id (st_world st)) as Hw.
    assert (Forall (fun path =>
                      is_Some (fs (download_pdf (net i) pdf_url output_path paper_id
                                     (st_world st)).1 !! path))
              (downloaded_files (st_stats st))) as Hkept.
    { eapply Forall_impl; [exact Hlisted|]. intros path. apply download_pdf_keeps. }
    destruct (download_pdf _ _ _ _ _) as [w' [|]];
      cbn [st_world st_stats count_downloaded count_failed downloaded_files fst snd emit fs] in *.
    + apply Forall_app. split; [done|]. repeat constructor. by apply Hw.
    + done.
Qed.

(** X18. Every path in [downloaded_files] is a file on disk: at every
    point of every run, each listed path exists in the file system. *)
Theorem listed_files_exist (max_concurrent : nat) (w : world) (schedule : list nat) :
  Forall (fun path =>
            is_Some (fs (st_world (run net papers output_dir max_concurrent w schedule)) !! path))
    (downloaded_files (st_stats (run net papers output_dir max_concurrent w schedule))).
Proof.
  unfold run.
  assert (Forall (fun path => is_Some (fs (st_world (initial papers max_concurrent w)) !! path))
            (downloaded_files (st_stats (initial papers max_concurrent w)))) as Hinit
    by constructor.
  revert Hinit. generalize (initial papers max_concurrent w).
  induction schedule as [|i schedule IH]; intros st Hst; [done|].
  cbn [fold_left]. apply IH. by apply step_listed_files.
Qed.

(** ** Requests against outcomes *)

Lemma step_requests (base : nat) st i :
  (base + (downloaded (st_stats st) + failed (st_stats st))
   <= requests (trace (st_world st))
   <= base + MAX_RETRIES * (downloaded (st_stats st) + failed (st_stats st)))%nat ->
  (base + (downloaded (st_stats (step' st i)) + failed (st_stats (step' st i)))
   <= requests (trace (st_world (step' st i)))
   <= base + MAX_RETRIES * (downloaded (st_stats (step' st i))
                            + failed (st_stats (step' st i))))%nat.
Proof.
  intros Hst. unfold step, download_with_semaphore.
  destruct (papers !! i) as [p|]; [| done].
  destruct (tasks st !! i) as [t|] eqn:Ht; [| done].
  destruct t as [|paper_id pdf_url output_path|paper_id pdf_url output_path|o]; [| | |done].
  - unfold start, set_task. repeat case_match; done.
  - unfold acquire. by destruct (permits st).
  - unfold finish.
    unfold download_pdf.
    destruct (attempts_events (net i) pdf_url output_path paper_id (seq 0 MAX_RETRIES)
                (st_world st)) as (new & Htrace & Hreq & Hone & _).
    rewrite length_seq in Hreq. specialize (Hone ltac:(done)).
    destruct (attempts _ _ _ _ _ _) as [w' [|]];
      cbn [st_world st_stats count_downloaded count_failed downloaded failed fst emit trace] in *;
      rewrite Htrace, ?requests_app; cbn [requests]; unfold MAX_RETRIES in *; lia.
Qed.

(** Between calls of [download_pdf] the requests made since the start are
    at least one and at most five for each record counted as downloaded or
    failed. *)
Lemma run_requests (max_concurrent : nat) (w : world) (schedule : list nat) :
  let st := run net papers output_dir max_concurrent w schedule in
  (requests (trace w) + (downloaded (st_stats st) + failed (st_stats st))
   <= requests (trace (st_world st))
   <= requests (trace w) + MAX_RETRIES * (downloaded (st_stats st) + failed (st_stats st)))%nat.
Proof.
  unfold run.
  assert (requests (trace w)
          + (downloaded (st_stats (initial papers max_concurrent w))
             + failed (st_stats (initial papers max_concurrent w)))
          <= requests (trace (st_world (initial papers max_concurrent w)))
          <= requests (trace w)
             + MAX_RETRIES * (downloaded (st_stats (initial papers max_concurrent w))
                              + failed (st_stats (initial papers max_concurrent w))))%nat
    as Hinit by (cbn; lia).
  revert Hinit. generalize (initial papers max_concurrent w).
  induction schedule as [|i schedule IH]; intros st Hst; [done|].
  cbn [fold_left]. apply IH. by apply step_requests.
Qed.

(** X19. Requests are made for attempted records only: when [download_all]
    returns, the requests made during the run are at least one and at most
    five for each record counted as downloaded or failed, and none for the
    others. *)
Theorem requests_by_outcome (max_concurrent : nat) (w : world) (schedule : list nat)
    (s : stats) :
  download_all net papers output_dir max_concurrent w schedule = Some s ->
  (requests (trace w) + (downloaded s + failed s)
   <= requests (trace (st_world (run net papers output_dir max_concurrent w schedule)))
   <= requests (trace w) + MAX_RETRIES * (downloaded s + failed s))%nat.
Proof.
  unfold download_all. destruct (all_done _); [| done]. intros [= <-].
  apply run_requests.
Qed.

(** ** A second run *)

Lemma step_nothing_to_do (w : world) st i :
  (forall p, p ∈ papers ->
     pick (get_pdf_url p) = None \/
     exists_ (target_path output_dir (get_paper_id p)) w = true) ->
  st_world st = w /\ Forall (fun t => pending_path t = None) (tasks st) /\
  downloaded (st_stats st) = 0%nat /\ failed (st_stats st) = 0%nat ->
  st_world (step' st i) = w /\ Forall (fun t => pending_path t = None) (tasks (step' st i)) /\
  downloaded (st_stats (step' st i)) = 0%nat /\ failed (st_stats (step' st i)) = 0%nat.
Proof.
  intros Hpresent (Hw & Hpending & Hd & Hf). unfold step, download_with_semaphore.
  destruct (papers !! i) as [p|] eqn:Hp; [| done].
  destruct (tasks st !! i) as [t|] eqn:Ht; [| done].
  pose proof (proj1 (Forall_lookup _ _) Hpending i t Ht) as Hpath.
  destruct t as [|paper_id pdf_url output_path|paper_id pdf_url output_path|o]; try done.
  unfold start, set_task.
  destruct (Hpresent p) as [Hurl|Hex]; [by eapply list_elem_of_lookup_2 | |].
  - rewrite Hurl. cbn. repeat split; try done. by apply Forall_insert.
  - destruct (pick (get_pdf_url p)).
    + rewrite Hw, Hex. cbn. repeat split; try done. by apply Forall_insert.
    + cbn. repeat split; try done. by apply Forall_insert.
Qed.

(** X20. Running the downloader again on a directory that is complete does
    nothing: when every record either has no link or has its file on disk,
    no request is made and no file is written, whatever the schedule, and
    when [download_all] returns every record is counted as skipped. *)
Theorem nothing_to_do (max_concurrent : nat) (w : world) (schedule : list nat) :
  (forall p, p ∈ papers ->
     pick (get_pdf_url p) = None \/
     exists_ (target_path output_dir (get_paper_id p)) w = true) ->
  st_world (run net papers output_dir max_concurrent w schedule) = w /\
  forall s, download_all net papers output_dir max_concurrent w schedule = Some s ->
    downloaded s = 0%nat /\ failed s = 0%nat /\
    (skipped_no_url s + skipped_exists s = length papers)%nat.
Proof.
  intros Hpresent.
  assert (st_world (run net papers output_dir max_concurrent w schedule) = w /\
          Forall (fun t => pending_path t = None)
            (tasks (run net papers output_dir max_concurrent w schedule)) /\
          downloaded (st_stats (run net papers output_dir max_concurrent w schedule)) = 0%nat /\
          failed (st_stats (run net papers output_dir max_concurrent w schedule)) = 0%nat)
    as (Hw & _ & Hd & Hf).
  { unfold run.
    assert (st_world (initial papers max_concurrent w) = w /\
            Forall (fun t => pending_path t = None) (tasks (initial papers max_concurrent w)) /\
            downloaded (st_stats (initial papers max_concurrent w)) = 0%nat /\
            failed (st_stats (initial papers max_concurrent w)) = 0%nat) as Hinit.
    { cbn. repeat split; try done. by apply Forall_replicate. }
    revert Hinit. generalize (initial papers max_concurrent w).
    induction schedule as [|i schedule IH]; intros st Hst; [done|].
    cbn [fold_left]. apply IH. by apply step_nothing_to_do. }
  split; [exact Hw|]. intros s. unfold download_all, all_done.
  destruct (forallb _ _) eqn:Hdone; [| done]. intros [= <-].
  split; [exact Hd|]. split; [exact Hf|].
  destruct (run_accounted net papers output_dir max_concurrent w schedule)
    as (Hc & _ & Hd' & Hn' & He' & Hf' & _).
  pose proof (count_outcomes_all_done papers _ (Forall2_length _ _ _ Hc) Hdone) as Hsum.
  rewrite <- Hd', <- Hn', <- He', <- Hf' in Hsum. lia.
Qed.

End scheduler_files.

Section scheduler_samples.
Import download_pdfs samples.

(** [permanent_failure_single_attempt] at the first sample record, whose
    document is gone. *)
Lemma permanent_failure_single_attempt_witness :
  download_pdf (sample_net 0) "http://host/x.pdf" "papers/10.1000_x.pdf" "10.1000_x" sample_world
    = ({| fs := fs sample_world; trace := [EGet "http://host/x.pdf" 0] |}, false) /\
  tasks (step sample_net sample_papers "papers" sample_running 0) !! 0%nat = Some (Done Failed).
Proof.
  destruct (permanent_failure_single_attempt sample_net sample_papers "papers" sample_running 0
              (with_doi "10.1000/x" "http://host/x.pdf")
              "10.1000_x" "http://host/x.pdf" "papers/10.1000_x.pdf" 404)
    as [Hdl Hstep]; [reflexivity | reflexivity | reflexivity | right; left |].
  split; [exact Hdl|]. rewrite Hstep. reflexivity.
Defined.

(** [transient_errors_exhaust_retries] at the second sample record, on a
    server that answers every request with status 500. *)
Lemma transient_errors_exhaust_retries_witness :
  download_pdf (always_status 500) "http://host/y" "papers/10.1000_y.pdf" "10.1000_y" sample_world
    = ({| fs := fs sample_world;
          trace := [EGet "http://host/y" 0; ESleep 1; EGet "http://host/y" 1; ESleep 2;
                    EGet "http://host/y" 2; ESleep 4; EGet "http://host/y" 3; ESleep 8;
                    EGet "http://host/y" 4] |}, false) /\
  tasks (step (fun _ => always_status 500) sample_papers "papers" sample_retrying 1) !! 1%nat
    = Some (Done Failed).
Proof.
  destruct (transient_errors_exhaust_retries (fun _ => always_status 500) sample_papers "papers"
              sample_retrying 1 (with_doi "10.1000/y" "http://host/y")
              "10.1000_y" "http://host/y" "papers/10.1000_y.pdf")
    as [Hdl Hstep]; [reflexivity | reflexivity | intros n _; reflexivity |].
  split; [exact Hdl|]. rewrite Hstep. reflexivity.
Defined.

(** [download_all_returns] at the sample records. *)
Lemma download_all_returns_witness :
  is_Some (download_all sample_net sample_papers "papers" 2 sample_world
             (in_order sample_papers)).
Proof.
  apply (download_all_returns sample_net sample_papers "papers" 2 sample_world).
  - lia.
  - repeat constructor.
Defined.

(** [no_url_skipped] at the third sample record. *)
Lemma no_url_skipped_witness :
  step sample_net sample_papers "papers" (initial sample_papers 2 sample_world) 2 =
    {| st_world := sample_world;
       st_stats := count_no_url (stats_init sample_papers);
       permits := 2;
       tasks := [Created; Created; Done SkippedNoUrl; Created] |}.
Proof.
  apply (no_url_skipped sample_net sample_papers "papers" (initial sample_papers 2 sample_world)
           2 (untitled "abc")); reflexivity.
Defined.

(** [download_all_counters] at the sample records. *)
Lemma download_all_counters_witness :
  (downloaded sample_stats + skipped_no_url sample_stats + skipped_exists sample_stats
   + failed sample_stats = total sample_stats)%nat /\
  total sample_stats = length sample_papers.
Proof.
  apply (download_all_counters sample_net sample_papers "papers" 2 sample_world
           (in_order sample_papers) sample_stats).
  vm_compute; reflexivity.
Defined.

(** [download_all_lists] at the sample records: the skipped-existing path
    and the downloaded path are both listed, the failed record once. *)
Lemma download_all_lists_witness :
  downloaded_files sample_stats ≡ₚ
    collect (file_of "papers") sample_papers
      (tasks (run sample_net sample_papers "papers" 2 sample_world (in_order sample_papers))) /\
  failed_papers sample_stats ≡ₚ
    collect failure_of sample_papers
      (tasks (run sample_net sample_papers "papers" 2 sample_world (in_order sample_papers))).
Proof.
  apply (download_all_lists sample_net sample_papers "papers" 2 sample_world
           (in_order sample_papers) sample_stats).
  vm_compute; reflexivity.
Defined.

(** [old_files_untouched] at the sample records: the document that was
    in the output directory is there after the run. *)
Lemma old_files_untouched_witness :
  fs (st_world (run sample_net sample_papers "papers" 2 sample_world (in_order sample_papers)))
    !! "papers/10.1000_z.pdf" = Some pdf_body.
Proof.
  apply (old_files_untouched sample_net sample_papers "papers" 2 sample_world
           (in_order sample_papers) "papers/10.1000_z.pdf" pdf_body).
  vm_compute; reflexivity.
Defined.

(** [requests_by_outcome] at the sample records: one request for the
    document that is gone, two for the one that arrives on the second
    attempt, none for the two records that are skipped. *)
Lemma requests_by_outcome_witness :
  (requests (trace sample_world) + (downloaded sample_stats + failed sample_stats)
   <= requests (trace (st_world (run sample_net sample_papers "papers" 2 sample_world
                                   (in_order sample_papers))))
   <= requests (trace sample_world)
      + MAX_RETRIES * (downloaded sample_stats + failed sample_stats))%nat.
Proof.
  apply (requests_by_outcome sample_net sample_papers "papers" 2 sample_world
           (in_order sample_papers) sample_stats).
  vm_compute; reflexivity.
Defined.

(** [nothing_to_do] at a record without link and the record whose document
    is in the output directory. *)
Lemma nothing_to_do_witness :
  st_world (run sample_net [untitled "abc"; with_doi "10.1000/z" "http://host/z"] "papers" 2
              sample_world [0; 1; 1; 0]%nat) = sample_world /\
  forall s,
    download_all sample_net [untitled "abc"; with_doi "10.1000/z" "http://host/z"] "papers" 2
      sample_world [0; 1; 1; 0]%nat = Some s ->
    downloaded s = 0%nat /\ failed s = 0%nat /\
    (skipped_no_url s + skipped_exists s
     = length [untitled "abc"; with_doi "10.1000/z" "http://host/z"])%nat.
Proof.
  apply (nothing_to_do sample_net [untitled "abc"; with_doi "10.1000/z" "http://host/z"]
           "papers" 2 sample_world [0; 1; 1; 0]%nat).
  intros p Hp. apply elem_of_cons in Hp as [->|Hp]; [left; reflexivity|].
  apply elem_of_cons in Hp as [->|Hp]; [right; vm_compute; reflexivity|].
  by apply elem_of_nil in Hp.
Defined.

(** C2, failing input. Two records whose DOIs differ in one character, a
    slash against an underscore, get the same id and hence the same target
    path, although the deduplication keeps both. *)
Lemma get_paper_id_collision :
  dedup_papers.get_doi (with_doi "10.1000/a_b" "http://host/1")
    <> dedup_papers.get_doi (with_doi "10.1000/a/b" "http://host/2") /\
  dedup_papers.deduplicate_papers rapidfuzz.token_sort_similarity
    [with_doi "10.1000/a_b" "http://host/1"; with_doi "10.1000/a/b" "http://host/2"] (85 # 100)
    = [with_doi "10.1000/a_b" "http://host/1"; with_doi "10.1000/a/b" "http://host/2"] /\
  get_paper_id (with_doi "10.1000/a_b" "http://host/1") = "10.1000_a_b" /\
  get_paper_id (with_doi "10.1000/a/b" "http://host/2") = "10.1000_a_b" /\
  target_path "papers" (get_paper_id (with_doi "10.1000/a_b" "http://host/1"))
    = target_path "papers" (get_paper_id (with_doi "10.1000/a/b" "http://host/2")).
Proof. repeat split; try (vm_compute; reflexivity). vm_compute. discriminate. Qed.

End scheduler_samples.

(* ===================================================================== *)
(** * Properties of the search orchestrator                               *)
(* ===================================================================== *)

Section orchestrator_properties.
Import run_searches.

Implicit Types (proc : string -> process_result) (name : string).

Lemma success_count_zero (results : list (string * Z * string)) :
  success_count results = 0%nat <-> Forall (fun r => exit_code r <> 0%Z) results.
Proof.
  unfold success_count. induction results as [|r results IH]; [by split|].
  rewrite filter_cons. case_decide as Hr; cbn [length].
  - split; [done|]. intros H. by apply Forall_cons in H as [? _].
  - rewrite IH. split; [by constructor|]. intros H. by apply Forall_cons in H as [_ ?].
Qed.

(** The exit status is 1 when no search ended with code 0, and 0 otherwise. *)
Lemma main_failure proc (completed : list string) :
  main proc completed <> 0%Z <->
  forall name, name ∈ completed -> exit_code (run_search name (proc name)) <> 0%Z.
Proof.
  unfold main. rewrite <- Forall_forall.
  destruct (success_count _ =? 0)%nat eqn:E.
  - apply Nat.eqb_eq, success_count_zero in E. by rewrite Forall_map in E.
  - apply Nat.eqb_neq in E. rewrite success_count_zero, Forall_map in E. done.
Qed.

(** A search is recorded with exit code 0 exactly when its process ended
    with return code 0. *)
Lemma run_search_success name (r : process_result) :
  exit_code (run_search name r) = 0%Z <-> exists stderr, r = Completed 0 stderr.
Proof.
  destruct r as [returncode stderr| |e]; cbn.
  - split; [intros ->; by exists stderr | by intros (? & [= -> _])].
  - split; [done | by intros (? & ?)].
  - split; [done | by intros (? & ?)].
Qed.

(** C8. In whatever order the three searches complete, the exit status of
    [main] is nonzero exactly when every search failed, that is when no
    process ended with return code 0, and it is 0 as soon as one did.  A
    process that ends is recorded under its name with its return code and
    its standard error; a search whose 300 seconds elapse is recorded with
    exit code -1 and the diagnostic [Timeout after 300 seconds], any other
    exception with exit code -1 and its text: both count as failures like
    a nonzero return code, and [main] still ends with an exit status. *)
Theorem main_exit_status proc (completed : list string) :
  completed ≡ₚ searches ->
  (main proc completed <> 0%Z <->
   forall name, name ∈ searches -> forall stderr, proc name <> Completed 0 stderr) /\
  (main proc completed = 0%Z <->
   exists name stderr, name ∈ searches /\ proc name = Completed 0 stderr) /\
  (main proc completed = 0%Z \/ main proc completed = 1%Z) /\
  (forall name returncode stderr, proc name = Completed returncode stderr ->
   run_search name (proc name) = (name, returncode, stderr)) /\
  (forall name, proc name = TimeoutExpired ->
   run_search name (proc name) = (name, (-1)%Z, "Timeout after 300 seconds") /\
   exit_code (run_search name (proc name)) <> 0%Z) /\
  (forall name e, proc name = Raised e ->
   run_search name (proc name) = (name, (-1)%Z, e) /\
   exit_code (run_search name (proc name)) <> 0%Z).
Proof.
  intros Hperm.
  assert (main proc completed <> 0%Z <->
          forall name, name ∈ searches -> forall stderr, proc name <> Completed 0 stderr)
    as Hfail.
  { rewrite main_failure. setoid_rewrite Hperm. split.
    - intros Hall name Hin stderr Hproc. apply (Hall name Hin).
      apply run_search_success. by exists stderr.
    - intros Hall name Hin Hcode. apply run_search_success in Hcode as [stderr Hproc].
      by apply (Hall name Hin stderr). }
  split; [exact Hfail|]. split; [| split; [| split; [| split]]].
  - split.
    + intros Hzero.
      destruct (decide (Exists (fun name => exit_code (run_search name (proc name)) = 0%Z)
                          searches)) as [Hex|Hnex].
      * apply Exists_exists in Hex as (name & Hin & Hcode).
        apply run_search_success in Hcode as [stderr Hproc]. by exists name, stderr.
      * exfalso. apply Hfail; [| exact Hzero].
        intros name Hin stderr Hproc. apply Hnex, Exists_exists. exists name.
        split; [done|]. apply run_search_success. by exists stderr.
    + intros (name & stderr & Hin & Hproc).
      destruct (decide (main proc completed = 0%Z)) as [|Hne]; [done|].
      exfalso. by apply (proj1 Hfail Hne name Hin stderr).
  - unfold main. destruct (success_count _ =? 0)%nat; [by right | by left].
  - by intros name returncode stderr ->.
  - intros name ->. by split.
  - intros name e ->. by split.
Qed.

End orchestrator_properties.

Section orchestrator_samples.
Import run_searches samples.

(** [main_exit_status] when the searches complete in reverse order, one
    of them with return code 0, one with return code 1 and one after its
    timeout: the exit status is 0. *)
Lemma main_exit_status_witness :
  main one_success ["search_google_scholar"; "search_arxiv"; "search_semantic_scholar"] = 0%Z.
Proof.
  apply (main_exit_status one_success
           ["search_google_scholar"; "search_arxiv"; "search_semantic_scholar"]).
  - unfold searches. symmetry.
    apply (Permutation_rev ["search_semantic_scholar"; "search_arxiv"; "search_google_scholar"]).
  - exists "search_arxiv", "". split; [right; left | reflexivity].
Defined.

End orchestrator_samples.

(* ===================================================================== *)
(** * Properties of the Semantic Scholar search                           *)
(* ===================================================================== *)

Section search_properties.
Import search_semantic_scholar.

Variable server : nat -> response.
Variable query : string.
Variable limit : nat.

Implicit Types (st : search_state) (range : list nat).

Local Abbreviation attempts' := (attempts server query limit).
Local Abbreviation search_query' := (search_query server query limit).

Lemma search_slept_app (a b : list event) : slept (a ++ b) = (slept a + slept b)%nat.
Proof. induction a as [|[] a IH]; cbn; lia. Qed.

(** ** Rate limiting *)

(** Under rate limiting the [for] loop runs to its end: one request per
    attempt, nothing gained. *)
Lemma attempts_rate_limited range : forall st,
  (forall n, (sent st <= n)%nat -> rate_limited (server n) = true) ->
  exists st',
    attempts' range st = Continue st' /\
    results st' = results st /\ sent st' = (sent st + length range)%nat.
Proof.
  induction range as [|n range IH]; intros st Hlimited; cbn [attempts].
  { exists st. repeat split. cbn. lia. }
  unfold attempt. pose proof (Hlimited (sent st) ltac:(lia)) as Hnow.
  destruct (server (sent st)) as [e|status_code e|batch next]; cbn in Hnow; try done.
  rewrite Hnow.
  match goal with |- context [attempts' range ?s] => destruct (IH s) as (st' & -> & Hr & Hs) end.
  { intros m Hm. apply Hlimited. cbn in Hm. lia. }
  exists st'. cbn in Hr, Hs. repeat split; [done | cbn; lia].
Qed.

(** X23. A search API that answers every request with status 429 keeps
    [search_query] in its loop for ever: each round of five attempts ends
    without a result and without a [return], and the [while] condition
    still holds.  However often the condition is evaluated, the function
    has not returned. *)
Theorem rate_limited_never_returns (fuel : nat) (st : search_state) :
  (length (results st) < limit)%nat ->
  (forall n, (sent st <= n)%nat -> rate_limited (server n) = true) ->
  search_query' fuel st = None.
Proof.
  revert st. induction fuel as [|fuel IH]; intros st Hlen Hlimited; [done|].
  cbn [search_query]. apply Nat.ltb_lt in Hlen as Hcond. rewrite Hcond.
  destruct (attempts_rate_limited (seq 0 5) st Hlimited) as (st' & -> & Hr & Hs).
  apply IH; [by rewrite Hr|]. intros n Hn. apply Hlimited. lia.
Qed.

(** ** Without rate limiting *)

(** Without a 429 the [for] loop is left by [return] or by [break], the
    latter with more results than before. *)
Lemma attempts_ends (m : nat) : forall k st,
  (k + m = 5)%nat -> (0 < m)%nat ->
  (forall n, rate_limited (server n) = false) ->
  (forall n batch next, server n = Page batch next -> has_next next = true -> batch <> []) ->
  match attempts' (seq k m) st with
  | Return_ st' => (sent st' <= sent st + m)%nat
  | Break st' =>
      (length (results st) < length (results st'))%nat /\ (sent st' <= sent st + m)%nat
  | Continue _ => False
  end.
Proof.
  induction m as [|m IH]; intros k st Hk Hm Hfree Hfull; [lia|].
  cbn [seq attempts]. unfold attempt.
  pose proof (Hfree (sent st)) as Hnow. pose proof (Hfull (sent st)) as Hpage.
  assert (forall st1, sent st1 = S (sent st) -> (k =? 4)%nat = false ->
            match attempts' (seq (S k) m) st1 with
            | Return_ st' => (sent st' <= sent st + S m)%nat
            | Break st' =>
                (length (results st1) < length (results st'))%nat /\
                (sent st' <= sent st + S m)%nat
            | Continue _ => False
            end) as Hnext.
  { intros st1 Hs Hk4. apply Nat.eqb_neq in Hk4.
    pose proof (IH (S k) st1 ltac:(lia) ltac:(lia) Hfree Hfull) as Hrest.
    destruct (attempts' (seq (S k) m) st1); [lia | | done].
    destruct Hrest. split; [done | lia]. }
  destruct (server (sent st)) as [e|status_code e|batch next]; cbn in Hnow.
  - destruct (k =? 4)%nat eqn:Hk4; [cbn; lia|].
    match goal with |- context [attempts' _ ?s] => specialize (Hnext s eq_refl eq_refl) end.
    by destruct (attempts' _ _).
  - rewrite Hnow. destruct (k =? 4)%nat eqn:Hk4; [cbn; lia|].
    match goal with |- context [attempts' _ ?s] => specialize (Hnext s eq_refl eq_refl) end.
    by destruct (attempts' _ _).
  - destruct next as [[|next]|]; cbn [sent request results]; try lia.
    split; [| lia]. rewrite length_app, length_fmap.
    specialize (Hpage batch (Some (S next)) eq_refl eq_refl).
    destruct batch; [done | cbn [length]; lia].
Qed.

Lemma search_query_returns_from (fuel : nat) : forall st,
  (forall n, rate_limited (server n) = false) ->
  (forall n batch next, server n = Page batch next -> has_next next = true -> batch <> []) ->
  (limit - length (results st) < fuel)%nat ->
  exists st',
    search_query' fuel st = Some st' /\
    (sent st' <= sent st + 5 * (limit - length (results st)))%nat.
Proof.
  induction fuel as [|fuel IH]; intros st Hfree Hfull Hfuel; [lia|].
  cbn [search_query]. destruct (length (results st) <? limit)%nat eqn:Hcond.
  - apply Nat.ltb_lt in Hcond.
    pose proof (attempts_ends 5 0 st eq_refl ltac:(lia) Hfree Hfull) as Hround.
    destruct (attempts' (seq 0 5) st) as [st1|st1|st1]; [| | done].
    + exists st1. split; [done | lia].
    + destruct Hround as [Hmore Hsent].
      destruct (IH st1 Hfree Hfull ltac:(lia)) as (st' & -> & Hs').
      exists st'. split; [done | lia].
  - exists st. split; [done | lia].
Qed.

(** X24. Without rate limiting [search_query] returns: when no response
    has status 429 and every page that announces a next one holds at least
    one record, the loop ends after at most [limit] rounds, having sent at
    most five requests for each. *)
Theorem search_query_returns (fuel : nat) :
  (forall n, rate_limited (server n) = false) ->
  (forall n batch next, server n = Page batch next -> has_next next = true -> batch <> []) ->
  (limit < fuel)%nat ->
  exists st', search_query' fuel initial = Some st' /\ (sent st' <= 5 * limit)%nat.
Proof.
  intros Hfree Hfull Hfuel.
  destruct (search_query_returns_from fuel initial Hfree Hfull) as (st' & Hst' & Hsent).
  { cbn. lia. }
  exists st'. split; [done|]. cbn in Hsent. lia.
Qed.

(** ** Five failures in a row *)

Lemma attempts_fail (m : nat) : forall k st,
  (k + m = 5)%nat -> (0 < m)%nat ->
  (forall j, (j < m)%nat -> fails (server (sent st + j)) = true) ->
  exists st',
    attempts' (seq k m) st = Return_ st' /\
    results st' = results st /\ offset st' = offset st /\
    sent st' = (sent st + m)%nat /\
    (slept (log st') + 2 ^ k = slept (log st) + 16)%nat.
Proof.
  induction m as [|m IH]; intros k st Hk Hm Hfails; [lia|].
  cbn [seq attempts]. unfold attempt.
  pose proof (Hfails 0%nat ltac:(lia)) as Hnow. rewrite Nat.add_0_r in Hnow.
  assert (forall st1,
            results st1 = results st -> offset st1 = offset st -> sent st1 = S (sent st) ->
            (slept (log st1) = slept (log st) + 2 ^ k)%nat -> (k =? 4)%nat = false ->
            exists st',
              attempts' (seq (S k) m) st1 = Return_ st' /\
              results st' = results st /\ offset st' = offset st /\
              sent st' = (sent st + S m)%nat /\
              (slept (log st') + 2 ^ k = slept (log st) + 16)%nat) as Hnext.
  { intros st1 Hr Ho Hs Hl Hk4. apply Nat.eqb_neq in Hk4.
    destruct (IH (S k) st1 ltac:(lia) ltac:(lia)) as (st' & -> & Hr' & Ho' & Hs' & Hl').
    { intros j Hj. rewrite Hs. replace (S (sent st) + j)%nat with (sent st + S j)%nat by lia.
      apply Hfails. lia. }
    exists st'. rewrite Nat.pow_succ_r' in Hl'.
    repeat split; [congruence | congruence | lia | lia]. }
  assert (k = 4 -> 2 ^ k = 16)%nat as Hlast by (intros ->; reflexivity).
  destruct (server (sent st)) as [e|status_code e|batch next]; cbn in Hnow; [| | done].
  - destruct (k =? 4)%nat eqn:Hk4.
    + apply Nat.eqb_eq in Hk4. assert (m = 0)%nat as -> by lia.
      eexists. split; [reflexivity|]. cbn [results offset sent log emit request].
      rewrite !search_slept_app. cbn [slept]. repeat split; lia.
    + apply Hnext; cbn [results offset sent log emit request]; try done.
      rewrite !search_slept_app. cbn [slept]. lia.
  - rewrite (negb_true_iff _) in Hnow. rewrite Hnow. destruct (k =? 4)%nat eqn:Hk4.
    + apply Nat.eqb_eq in Hk4. assert (m = 0)%nat as -> by lia.
      eexists. split; [reflexivity|]. cbn [results offset sent log emit request].
      rewrite !search_slept_app. cbn [slept]. repeat split; lia.
    + apply Hnext; cbn [results offset sent log emit request]; try done.
      rewrite !search_slept_app. cbn [slept]. lia.
Qed.

(** X25. Five failures in a row end the search with what it has: when the
    next five requests raise or come back with an error status other than
    429, [search_query] returns the results collected so far, after these
    five requests and 1 + 2 + 4 + 8 seconds of sleep. *)
Theorem five_failures_give_up (fuel : nat) (st : search_state) :
  (length (results st) < limit)%nat ->
  (forall j, (j < 5)%nat -> fails (server (sent st + j)) = true) ->
  exists st',
    search_query' (S fuel) st = Some st' /\
    results st' = results st /\
    sent st' = (sent st + 5)%nat /\
    slept (log st') = (slept (log st) + 15)%nat.
Proof.
  intros Hlen Hfails. cbn [search_query]. apply Nat.ltb_lt in Hlen. rewrite Hlen.
  destruct (attempts_fail 5 0 st eq_refl ltac:(lia) Hfails) as (st' & -> & Hr & _ & Hs & Hl).
  exists st'. cbn in Hl. repeat split; [done | done | lia].
Qed.

(** ** The records returned *)

Lemma tag_tagged (paper : s2_paper) : tagged query (tag query paper).
Proof. done. Qed.

Lemma attempts_tagged range : forall st,
  Forall (tagged query) (results st) ->
  match attempts' range st with
  | Return_ st' | Break st' | Continue st' => Forall (tagged query) (results st')
  end.
Proof.
  induction range as [|n range IH]; intros st Hst; cbn [attempts]; [done|].
  unfold attempt.
  assert (forall batch, Forall (tagged query) (results st ++ (tag query <$> batch))) as Hpage.
  { intros batch. apply Forall_app. split; [done|]. apply Forall_fmap, Forall_true, tag_tagged. }
  destruct (server (sent st)) as [e|status_code e|batch [[|next]|]];
    [destruct (n =? 4)%nat
    |destruct (status_code =? 429)%nat; [| destruct (n =? 4)%nat]
    | | |]; try apply IH; cbn [results request emit]; try done; apply Hpage.
Qed.

(** X26. Every record [search_query] returns carries the source
    [semantic_scholar] and the query it was found with. *)
Theorem results_tagged (fuel : nat) (st' : search_state) :
  search_query' fuel initial = Some st' ->
  Forall (tagged query) (results st').
Proof.
  assert (Forall (tagged query) (results initial)) as Hinit by constructor.
  revert Hinit. generalize initial. induction fuel as [|fuel IH]; intros st Hst; [done|].
  cbn [search_query]. pose proof (attempts_tagged (seq 0 5) st Hst) as Hround.
  destruct (length (results st) <? limit)%nat; [| by intros [= <-]].
  destruct (attempts' (seq 0 5) st); [by intros [= <-] | by apply IH | by apply IH].
Qed.

End search_properties.

Section search_samples.
Import search_semantic_scholar samples.

(** [rate_limited_never_returns] at a search API that is rate limiting for
    good: after seven rounds the search has not returned. *)
Lemma rate_limited_never_returns_witness :
  search_query rate_limiting "graph kernels" 100 7 initial = None.
Proof.
  apply (rate_limited_never_returns rate_limiting "graph kernels" 100 7 initial).
  - cbn. lia.
  - intros n _. reflexivity.
Defined.

(** [search_query_returns] at a search API that times out once and then
    serves two pages. *)
Lemma search_query_returns_witness :
  exists st',
    search_query two_pages "graph kernels" 100 101 initial = Some st' /\
    (sent st' <= 5 * 100)%nat.
Proof.
  apply (search_query_returns two_pages "graph kernels" 100 101).
  - intros [|[|n]]; reflexivity.
  - intros [|[|n]] batch next Hpage Hnext.
    + discriminate Hpage.
    + injection Hpage as <- <-. discriminate.
    + injection Hpage as <- <-. discriminate Hnext.
  - lia.
Defined.

(** [five_failures_give_up] at a search API that cannot be reached. *)
Lemma five_failures_give_up_witness :
  exists st',
    search_query unreachable "graph kernels" 100 1 initial = Some st' /\
    results st' = results initial /\
    sent st' = (sent initial + 5)%nat /\
    slept (log st') = (slept (log initial) + 15)%nat.
Proof.
  apply (five_failures_give_up unreachable "graph kernels" 100 0 initial).
  - cbn. lia.
  - intros j _. reflexivity.
Defined.

(** [results_tagged] at the two pages: both records are returned, each
    with the source and the query. *)
Lemma results_tagged_witness :
  Forall (tagged "graph kernels")
    [tag "graph kernels" (s2_record "a1" "10.1000/a");
     tag "graph kernels" (s2_record "b2" "10.1000/b")].
Proof.
  apply (results_tagged two_pages "graph kernels" 100 3
           {| results := [tag "graph kernels" (s2_record "a1" "10.1000/a");
                          tag "graph kernels" (s2_record "b2" "10.1000/b")];
              offset := 1; sent := 3;
              log := [ERequest 0 100; ESleep 1; ERequest 0 100; ERequest 1 99] |}).
  vm_compute; reflexivity.
Defined.

End search_samples.
